(** * SyferText [syfertext/utils.py]: a shallow embedding and its properties

    The development follows the layout of the Python module:

    - [normalize_slice]     : slice-boundary arithmetic on Python ints ([Z]);
    - [create_state_query]  : the [pipeline:state] identifier, together with
                              the [str.split] / [str.replace] / [os.path.join]
                              calls that [search_resource] applies to it;
    - [search_resource]     : the three-tier lookup (local worker, disk cache,
                              known workers), written in a small monad that
                              records every call made to a collaborator and
                              propagates Python exceptions;
    - [create_mpc_config]   : the choice of SMPC share holders;
    - [compile_prefix_regex], [compile_suffix_regex], [compile_infix_regex] :
                              the expressions built for the tokenizer.

    Python values are modelled as follows: [int] is [Z], [str] is [string],
    an [Optional[int]] argument is [option Z], a [dict] is an association
    list in insertion order (which is also its iteration order), a raised
    exception is the left injection of a sum. *)

From Stdlib Require Import ZArith List String Ascii Bool Lia Arith DecimalString.
Import ListNotations.

Local Open Scope string_scope.

(** ** Python exceptions that the modelled code can raise or propagate *)

Inductive exn : Type :=
| AssertionError (msg : string)
| KeyError (key : string)
| IndexError
| ValueError
| RemoteError (msg : string).   (* anything raised by a collaborator *)

(** ** [normalize_slice] *)

Module Slice.

Local Open Scope Z_scope.

(** [normalize_slice(length, start, stop, step=None)].  The [assert] on
    [step] is the only way the function can raise. *)
Definition normalize_slice (length : Z) (start stop : option Z) (step : option Z)
  : exn + (Z * Z) :=
  if match step with None => true | Some k => k =? 1 end then
    let start :=
      match start with
      | None => 0
      | Some s => if s <? 0 then s + length else s
      end in
    let start := Z.min length (Z.max 0 start) in
    let stop :=
      match stop with
      | None => length
      | Some e => if e <? 0 then e + length else e
      end in
    let stop := Z.min length (Z.max start stop) in
    inr (start, stop)
  else
    inl (AssertionError "Stepped slices with steps greater than one are not supported").

(** The condition under which the [assert] passes. *)
Definition step_supported (step : option Z) : Prop :=
  step = None \/ step = Some 1.

End Slice.

(** ** Strings: the [str] and [os.path] operations used by the module *)

Module Str.

(** [s.split(sep)] for a one-character separator. *)
Fixpoint split (sep : ascii) (s : string) : list string :=
  match s with
  | EmptyString => [EmptyString]
  | String c rest =>
      if Ascii.eqb c sep then EmptyString :: split sep rest
      else match split sep rest with
           | [] => [String c EmptyString]
           | tok :: toks => String c tok :: toks
           end
  end.

(** [s.replace(old, new)] for one-character [old] and [new]. *)
Fixpoint replace (old new : ascii) (s : string) : string :=
  match s with
  | EmptyString => EmptyString
  | String c rest =>
      String (if Ascii.eqb c old then new else c) (replace old new rest)
  end.

(** [c in s] for a character [c]. *)
Fixpoint contains (c : ascii) (s : string) : bool :=
  match s with
  | EmptyString => false
  | String d rest => Ascii.eqb d c || contains c rest
  end.

Definition startswith_sep (s : string) : bool :=
  match s with
  | String "/" _ => true
  | _ => false
  end.

Fixpoint endswith_sep (s : string) : bool :=
  match s with
  | EmptyString => false
  | String c EmptyString => Ascii.eqb c "/"
  | String _ rest => endswith_sep rest
  end.

(** One step of [posixpath.join]: an absolute component discards what
    precedes it, otherwise the component is appended after a single [/]. *)
Definition join_step (path b : string) : string :=
  if startswith_sep b then b
  else if (String.eqb path "" || endswith_sep path)%bool then path ++ b
  else path ++ "/" ++ b.

(** [os.path.join(a, *p)] on a POSIX system. *)
Definition path_join (a : string) (p : list string) : string :=
  fold_left join_step p a.

(** The separator of a state query. *)
Definition colon : ascii := ":"%char.
Definition dash : ascii := "-"%char.

(** [create_state_query(pipeline_name, state_name)]:
    the f-string [f"{pipeline_name}:{state_name}"]. *)
Definition create_state_query (pipeline_name state_name : string) : string :=
  pipeline_name ++ ":" ++ state_name.

End Str.

(** ** Effects: exceptions, and calls made to collaborators *)

Class Monad (m : Type -> Type) : Type := {
  ret  : forall {A}, A -> m A;
  bind : forall {A B}, m A -> (A -> m B) -> m B
}.

Declare Scope py_scope.
Delimit Scope py_scope with py.
Notation "x <- c ;; k" := (bind c (fun x => k))
  (at level 61, c at next level, right associativity) : py_scope.
Notation "c ;;; k" := (bind c (fun _ => k))
  (at level 61, right associativity) : py_scope.

(** Code that can only raise: [inl e] is [raise e]. *)
Definition outcome (A : Type) : Type := (exn + A)%type.

#[export] Instance outcome_monad : Monad outcome := {
  ret := fun A a => inr a;
  bind := fun A B c k => match c with inl e => inl e | inr a => k a end
}.

(** Code that also talks to collaborators: the list holds the calls made,
    oldest first, up to the return or to the exception. *)
Definition traced (C A : Type) : Type := (list C * outcome A)%type.

#[export] Instance traced_monad (C : Type) : Monad (traced C) := {
  ret := fun A a => ([], inr a);
  bind := fun A B c k =>
    match c with
    | (t, inl e) => (t, inl e)
    | (t, inr a) => let (t', r) := k a in ((t ++ t')%list, r)
    end
}.

(** [assert cond, msg] *)
Definition assert_ {m} `{Monad m} (raise : exn -> m unit)
    (cond : bool) (msg : string) : m unit :=
  if cond then ret tt else raise (AssertionError msg).

(** Truth value of a list in an [if]. *)
Definition truthy {A} (l : list A) : bool :=
  match l with [] => false | _ :: _ => true end.

(** [l[i]] *)
Definition getitem {A} (l : list A) (i : nat) : outcome A :=
  match nth_error l i with
  | Some a => inr a
  | None => inl IndexError
  end.

(** ** [search_resource] *)

Module Resolver.

Section Model.

(** [Obj]: the objects and pointers handed back by a search;
    [Loc]: the worker handles stored in [_known_workers]. *)
Variables Obj Loc : Type.

(** The part of a [BaseWorker] that [search_resource] uses.  A call to a
    worker either raises or returns a list of matches. *)
Record worker : Type := {
  search : string -> outcome (list Obj);
  known_workers : list (string * Loc);
  request_search : string -> Loc -> outcome (list Obj)
}.

(** The part of the operating system that [search_resource] uses. *)
Record filesystem : Type := {
  home : string;                       (* str(Path.home()) *)
  path_exists : string -> bool;        (* os.path.exists *)
  isfile : string -> bool;             (* os.path.isfile *)
  getsize : string -> Z;               (* os.path.getsize *)
  load : string -> outcome Obj          (* dill.load(open(path, "rb")) *)
}.

Inductive call : Type :=
| LocalSearch (query : string)
| PathExists (path : string)
| IsFile (path : string)
| GetSize (path : string)
| OpenLoad (path : string)
| RequestSearch (query : string) (location : Loc).

Definition M : Type -> Type := traced call.

Definition raise {A} (e : exn) : M A := ([], inl e).
Definition lift {A} (r : outcome A) : M A := ([], r).
Definition perform {A} (c : call) (r : outcome A) : M A := ([c], r).

Definition ambiguous_msg : string :=
  "Ambiguous result: multiple objects matching the search query were found on worker".

Local Open Scope py_scope.

(** The [for _, location in local_worker._known_workers.items()] loop;
    running off its end is the implicit [return None]. *)
Fixpoint search_known_workers (local_worker : worker) (query : string)
    (items : list (string * Loc)) : M (option Obj) :=
  match items with
  | [] => ret None
  | (_, location) :: items' =>
      result <- perform (RequestSearch query location)
                        (request_search local_worker query location) ;;
      if truthy result then
        assert_ raise (List.length result =? 1)%nat ambiguous_msg ;;;
        object_ptr <- lift (getitem result 0) ;;
        ret (Some object_ptr)
      else
        search_known_workers local_worker query items'
  end.

Definition search_resource (fs : filesystem) (query : string)
    (local_worker : worker) : M (option Obj) :=
  result <- perform (LocalSearch query) (search local_worker query) ;;
  if truthy result then
    assert_ raise (List.length result =? 1)%nat ambiguous_msg ;;;
    found <- lift (getitem result 0) ;;
    ret (Some found)
  else
    let data_path := Str.path_join (home fs) ["SyferText"; "cache"] in
    let tokens := Str.split Str.colon query in
    let file_name := Str.replace Str.colon Str.dash query in
    pipeline_dir <- lift (getitem tokens 0) ;;
    let data_path := Str.path_join data_path [pipeline_dir] in
    cached <-
      (dir_exists <- perform (PathExists data_path) (inr (path_exists fs data_path)) ;;
       if dir_exists : bool then
         let target := "/" ++ file_name ++ ".pkl" in
         is_file <- perform (IsFile (data_path ++ target))
                            (inr (isfile fs (data_path ++ target))) ;;
         non_empty <-
           (if is_file : bool then
              size <- perform (GetSize (data_path ++ target))
                              (inr (getsize fs (data_path ++ target))) ;;
              ret (0 <? size)%Z
            else ret false) ;;
         if non_empty : bool then
           simplified_state <- perform (OpenLoad (data_path ++ target))
                                       (load fs (data_path ++ target)) ;;
           ret (Some simplified_state)
         else ret None
       else ret None) ;;
    match cached with
    | Some simplified_state => ret (Some simplified_state)
    | None => search_known_workers local_worker query (known_workers local_worker)
    end.

(** *** Vocabulary for the statements below *)

(** Directory and file that the cache tier probes for [query]. *)
Definition cache_dir (fs : filesystem) (query : string) : string :=
  Str.path_join (Str.path_join (home fs) ["SyferText"; "cache"])
                [hd "" (Str.split Str.colon query)].

Definition cache_file (fs : filesystem) (query : string) : string :=
  cache_dir fs query ++ "/" ++ Str.replace Str.colon Str.dash query ++ ".pkl".

(** The calls made by the cache tier when it does not find a usable file. *)
Definition cache_probe (fs : filesystem) (query : string) : list call :=
  PathExists (cache_dir fs query) ::
  (if path_exists fs (cache_dir fs query) then
     IsFile (cache_file fs query) ::
     (if isfile fs (cache_file fs query)
      then [GetSize (cache_file fs query)] else [])
   else []).

(** The test that guards [dill.load]: the directory exists, and the file
    is a regular file of positive size. *)
Definition cache_hit (fs : filesystem) (query : string) : bool :=
  path_exists fs (cache_dir fs query)
  && isfile fs (cache_file fs query)
  && (0 <? getsize fs (cache_file fs query))%Z.

Definition is_request (c : call) : bool :=
  match c with RequestSearch _ _ => true | _ => false end.

Definition is_disk_call (c : call) : bool :=
  match c with
  | PathExists _ | IsFile _ | GetSize _ | OpenLoad _ => true
  | _ => false
  end.

Definition requests (query : string) (items : list (string * Loc)) : list call :=
  map (fun item => RequestSearch query (snd item)) items.

End Model.

Arguments search {Obj Loc} _ _.
Arguments known_workers {Obj Loc} _.
Arguments request_search {Obj Loc} _ _ _.
Arguments home {Obj} _.
Arguments path_exists {Obj} _ _.
Arguments isfile {Obj} _ _.
Arguments getsize {Obj} _ _.
Arguments load {Obj} _ _.
Arguments LocalSearch {Loc} _.
Arguments PathExists {Loc} _.
Arguments IsFile {Loc} _.
Arguments GetSize {Loc} _.
Arguments OpenLoad {Loc} _.
Arguments RequestSearch {Loc} _ _.
Arguments search_known_workers {Obj Loc} _ _ _.
Arguments search_resource {Obj Loc} _ _ _.
Arguments cache_dir {Obj} _ _.
Arguments cache_file {Obj} _ _.
Arguments cache_probe {Obj Loc} _ _.
Arguments cache_hit {Obj} _ _.
Arguments is_request {Loc} _.
Arguments is_disk_call {Loc} _.
Arguments requests {Loc} _ _.

End Resolver.

(** ** [create_mpc_config] *)

Module Mpc.

(** [str(i)] for a non-negative index. *)
Definition str_of_nat (i : nat) : string :=
  NilZero.string_of_uint (Nat.to_uint i).

(** The key [f"node_{i}"]. *)
Definition node_key (i : nat) : string := "node_" ++ str_of_nat i.

Section Dict.

Variable V : Type.

(** A [dict] with [str] keys, as its items in insertion order. *)
Definition dict : Type := list (string * V).

Definition keys (d : dict) : list string := map fst d.

Fixpoint lookup (d : dict) (k : string) : option V :=
  match d with
  | [] => None
  | (k', v) :: d' => if String.eqb k' k then Some v else lookup d' k
  end.

(** [d[k]] *)
Definition dict_getitem (d : dict) (k : string) : outcome V :=
  match lookup d k with
  | Some v => inr v
  | None => inl (KeyError k)
  end.

(** [d[k] = v]: an existing key keeps its position. *)
Fixpoint dict_setitem (d : dict) (k : string) (v : V) : dict :=
  match d with
  | [] => [(k, v)]
  | (k', v') :: d' =>
      if String.eqb k' k then (k', v) :: d'
      else (k', v') :: dict_setitem d' k v
  end.

(** Invariant of a [dict]: no key occurs twice. *)
Definition well_formed (d : dict) : Prop := NoDup (keys d).

End Dict.

Arguments keys {V} _.
Arguments lookup {V} _ _.
Arguments dict_getitem {V} _ _.
Arguments dict_setitem {V} _ _ _.
Arguments well_formed {V} _.

Section Choice.

Variable A : Type.
Variable default : A.

(** The random source: [rng k] is the [k]-th number it produces. *)
Variable rng : nat -> nat.

Fixpoint remove_at (i : nat) (l : list A) : list A :=
  match l, i with
  | [], _ => []
  | _ :: l', O => l'
  | x :: l', S i' => x :: remove_at i' l'
  end.

(** Drawing [size] elements one after the other, each draw taking one of
    the elements still in [pool]. *)
Fixpoint sample (draw : nat) (pool : list A) (size : nat) : list A :=
  match size with
  | O => []
  | S size' =>
      let i := rng draw mod List.length pool in
      nth i pool default :: sample (S draw) (remove_at i pool) size'
  end.

End Choice.

Arguments remove_at {A} _ _.
Arguments sample {A} _ _ _ _ _.

(** A [str] read back from a numpy array: numpy stores the strings of a
    list in cells of one fixed width, padded with NUL characters, and a
    cell read back loses the NUL characters at its end, those of the
    original string included. *)
Fixpoint np_str (s : string) : string :=
  match s with
  | EmptyString => EmptyString
  | String c rest =>
      match np_str rest with
      | EmptyString => if Ascii.eqb c Ascii.zero then EmptyString else String c EmptyString
      | kept => String c kept
      end
  end.

(** [np.random.choice(a=a, size=size, replace=False)] on a list of [str]:
    numpy raises [ValueError] when asked for more elements than [a] has,
    and otherwise returns an array of strings, read back one by one by the
    loop that walks it. *)
Definition random_choice (rng : nat -> nat) (a : list string) (size : nat)
  : outcome (list string) :=
  if (List.length a <? size)%nat then inl ValueError
  else inr (map np_str (sample "" rng 0 a size)).

(** Whether the last character of [s] is NUL. *)
Fixpoint ends_in_nul (s : string) : bool :=
  match s with
  | EmptyString => false
  | String c EmptyString => Ascii.eqb c Ascii.zero
  | String _ rest => ends_in_nul rest
  end.

Section Model.

(** [W]: the worker handles stored in [_known_workers]. *)
Variable W : Type.
Variable rng : nat -> nat.

Local Open Scope py_scope.

(** The dict comprehension that drops the local worker [me]. *)
Definition known_workers_except_me (all_workers : dict W) : dict W :=
  filter (fun item => negb (String.eqb (fst item) "me")) all_workers.

(** [for i, node_id in enumerate(ids): mpc_config[f"node_{i}"] = known_workers[node_id]],
    with [i] the index of the head of [ids]. *)
Fixpoint assign_nodes (known_workers : dict W) (i : nat) (ids : list string)
    (mpc_config : dict W) : outcome (dict W) :=
  match ids with
  | [] => ret mpc_config
  | node_id :: ids' =>
      w <- dict_getitem known_workers node_id ;;
      assign_nodes known_workers (S i) ids' (dict_setitem mpc_config (node_key i) w)
  end.

(** [create_mpc_config(worker)], on [worker._known_workers].  The value
    [None] of the result is Python's [None]. *)
Definition create_mpc_config (all_workers : dict W) : outcome (option (dict W)) :=
  let known_workers := known_workers_except_me all_workers in
  if (List.length known_workers =? 1)%nat then ret None
  else
    let mpc_config : dict W := [] in
    mpc_config <-
      (if (List.length known_workers =? 2)%nat then
         mpc_config <- assign_nodes known_workers 0 (keys known_workers) mpc_config ;;
         node_1 <- dict_getitem mpc_config "node_1" ;;
         ret (dict_setitem mpc_config "node_2" node_1)
       else ret mpc_config) ;;
    mpc_config <-
      (if (3 <=? List.length known_workers)%nat then
         selected_node_ids <- random_choice rng (keys known_workers) 3 ;;
         assign_nodes known_workers 0 selected_node_ids mpc_config
       else ret mpc_config) ;;
    ret (Some mpc_config).

(** No id of an eligible worker ends in a NUL character. *)
Definition no_id_ends_in_nul (all_workers : dict W) : Prop :=
  forall id, In id (keys (known_workers_except_me all_workers)) ->
             ends_in_nul id = false.

End Model.

Arguments known_workers_except_me {W} _.
Arguments assign_nodes {W} _ _ _ _.
Arguments create_mpc_config {W} _ _.
Arguments no_id_ends_in_nul {W} _.

End Mpc.

(** ** Concrete workers, file systems and registries

    Objects are numbers and worker handles are names. *)

Module Examples.

Import Resolver.

Definition query : string := Str.create_state_query "modelA" "vocab".

Definition no_such_file : outcome nat := inl (RemoteError "FileNotFoundError").

(** No cache directory at all. *)
Definition no_cache : filesystem nat := {|
  home := "/home/user";
  path_exists := fun _ => false;
  isfile := fun _ => false;
  getsize := fun _ => 0%Z;
  load := fun _ => no_such_file
|}.

(** The cache directory of [modelA] holds a zero-length file for [query]. *)
Definition empty_cache_file : filesystem nat := {|
  home := "/home/user";
  path_exists := fun p => String.eqb p "/home/user/SyferText/cache/modelA";
  isfile := fun p => String.eqb p "/home/user/SyferText/cache/modelA/modelA-vocab.pkl";
  getsize := fun _ => 0%Z;
  load := fun _ => no_such_file
|}.

Definition peers : list (string * string) :=
  [("me", "me"); ("alice", "alice"); ("bob", "bob"); ("carol", "carol")].

(** The local worker holds exactly one object tagged with the query. *)
Definition holds_locally : worker nat string := {|
  search := fun _ => inr [7];
  known_workers := peers;
  request_search := fun _ _ => inr [8]
|}.

(** The local worker holds two objects tagged with the query. *)
Definition ambiguous_locally : worker nat string := {|
  search := fun _ => inr [7; 9];
  known_workers := peers;
  request_search := fun _ _ => inr [8]
|}.

(** Nothing locally; [bob] and [carol] each hold one match. *)
Definition bob_holds : worker nat string := {|
  search := fun _ => inr [];
  known_workers := peers;
  request_search := fun _ location =>
    if String.eqb location "bob" then inr [42]
    else if String.eqb location "carol" then inr [43]
    else inr []
|}.

(** As [bob_holds], but [alice] has left and the request to her fails. *)
Definition alice_unreachable : worker nat string := {|
  search := fun _ => inr [];
  known_workers := peers;
  request_search := fun _ location =>
    if String.eqb location "alice" then inl (RemoteError "ConnectionError")
    else if String.eqb location "bob" then inr [42]
    else inr []
|}.

(** Registries for [create_mpc_config]; handles are numbers. *)
Definition registry_one : Mpc.dict nat := [("me", 0); ("alice", 1)].
Definition registry_two : Mpc.dict nat := [("me", 0); ("alice", 1); ("bob", 2)].
Definition registry_four : Mpc.dict nat :=
  [("me", 0); ("alice", 1); ("bob", 2); ("carol", 3); ("dave", 4)].

(** A random source: the [k]-th draw is [2 * k + 1]. *)
Definition odd_draws (k : nat) : nat := 2 * k + 1.

End Examples.

(** ** [compile_prefix_regex], [compile_suffix_regex], [compile_infix_regex]

    The three functions build the source text of a regular expression and
    hand it to [re.compile]; what is modelled is that text, the [pattern]
    attribute of the object they return.  Characters are code points below
    256 (one [ascii] each). *)

Module Regex.

(** [c.isspace()]: the white space that [str.strip()] removes. *)
Definition is_space (c : ascii) : bool :=
  let n := nat_of_ascii c in
  ((9 <=? n) && (n <=? 13) || (28 <=? n) && (n <=? 32)
   || (n =? 133) || (n =? 160))%nat.

(** Truth value of [piece.strip()]: [piece] has a character that is not
    white space. *)
Fixpoint strip_truthy (piece : string) : bool :=
  match piece with
  | EmptyString => false
  | String c rest => negb (is_space c) || strip_truthy rest
  end.

(** [sep.join(pieces)] *)
Definition join (sep : string) (pieces : list string) : string :=
  String.concat sep pieces.

Definition bar : ascii := "|"%char.

(** A compiled pattern object; [pattern] is the text it was compiled
    from. *)
Inductive Pattern : Type := Compiled (expression : string).

Definition pattern (p : Pattern) : string :=
  match p with Compiled expression => expression end.

Section Compile.

(** [re.escape], whose set of escaped characters depends on the Python
    version. *)
Variable escape : string -> string.

(** Whether the [re] module accepts an expression. *)
Variable valid_regex : string -> bool.

(** [re.compile(expression)]: a pattern object, or [re.error] for an
    expression that the module rejects. *)
Definition re_compile (expression : string) : outcome Pattern :=
  if valid_regex expression then inr (Compiled expression)
  else inl (RemoteError "re.error").

(** The local variable [expression] of each function. *)
Definition prefix_expression (entries : list string) : string :=
  if existsb (String.eqb "(") entries then
    join "|" (map (fun piece => "^" ++ escape piece) (filter strip_truthy entries))
  else
    join "|" (map (fun piece => "^" ++ piece) (filter strip_truthy entries)).

Definition suffix_expression (entries : list string) : string :=
  join "|" (map (fun piece => piece ++ "$") (filter strip_truthy entries)).

Definition infix_expression (entries : list string) : string :=
  join "|" (map (fun piece => piece) (filter strip_truthy entries)).

Definition compile_prefix_regex (entries : list string) : outcome Pattern :=
  if existsb (String.eqb "(") entries then
    let expression :=
      join "|" (map (fun piece => "^" ++ escape piece) (filter strip_truthy entries)) in
    re_compile expression
  else
    let expression :=
      join "|" (map (fun piece => "^" ++ piece) (filter strip_truthy entries)) in
    re_compile expression.

Definition compile_suffix_regex (entries : list string) : outcome Pattern :=
  let expression :=
    join "|" (map (fun piece => piece ++ "$") (filter strip_truthy entries)) in
  re_compile expression.

Definition compile_infix_regex (entries : list string) : outcome Pattern :=
  let expression :=
    join "|" (map (fun piece => piece) (filter strip_truthy entries)) in
  re_compile expression.

End Compile.

End Regex.

(** ** Further workers and file systems *)

Module Scenarios.

Import Resolver.

(** The cache of [modelA] holds a ten-byte file for [Examples.query] that
    unpickles to the object [99]. *)
Definition warm_cache : filesystem nat := {|
  home := "/home/user";
  path_exists := fun p => String.eqb p "/home/user/SyferText/cache/modelA";
  isfile := fun p => String.eqb p "/home/user/SyferText/cache/modelA/modelA-vocab.pkl";
  getsize := fun _ => 10%Z;
  load := fun _ => inr 99
|}.

(** The same file, with content that [dill.load] rejects. *)
Definition corrupt_cache : filesystem nat := {|
  home := "/home/user";
  path_exists := fun p => String.eqb p "/home/user/SyferText/cache/modelA";
  isfile := fun p => String.eqb p "/home/user/SyferText/cache/modelA/modelA-vocab.pkl";
  getsize := fun _ => 10%Z;
  load := fun _ => inl (RemoteError "UnpicklingError")
|}.

(** Nobody holds the object. *)
Definition nobody_holds : worker nat string := {|
  search := fun _ => inr [];
  known_workers := Examples.peers;
  request_search := fun _ _ => inr []
|}.

(** [alice] holds two objects tagged with the query, [bob] holds one. *)
Definition alice_ambiguous : worker nat string := {|
  search := fun _ => inr [];
  known_workers := Examples.peers;
  request_search := fun _ location =>
    if String.eqb location "alice" then inr [40; 41]
    else if String.eqb location "bob" then inr [42]
    else inr []
|}.

(** The local object store itself fails. *)
Definition local_store_down : worker nat string := {|
  search := fun _ => inl (RemoteError "ObjectStoreError");
  known_workers := Examples.peers;
  request_search := fun _ _ => inr [8]
|}.

(** A registry in which the id of one eligible worker ends in NUL. *)
Definition registry_nul : Mpc.dict nat :=
  [("me", 0); (String "a" (String Ascii.zero EmptyString), 1); ("b", 2); ("c", 3)].

End Scenarios.

(** * Properties *)

(** ** Slice normalisation *)

Section SliceFacts.

Import Slice.
Local Open Scope Z_scope.

Lemma normalize_slice_unsupported_step (length : Z) (start stop : option Z) (k : Z) :
  k <> 1 ->
  exists msg, normalize_slice length start stop (Some k) = inl (AssertionError msg).
Proof.
  intros Hk. unfold normalize_slice.
  destruct (Z.eqb_spec k 1) as [->|_]; [contradiction | eauto].
Qed.

(** C10: for a non-negative [length], any [start] and [stop] (an int or
    [None]) and a [step] that is [None] or [1], [normalize_slice] returns
    a pair [(start', stop')] with [0 <= start' <= stop' <= length]. *)
Theorem normalize_slice_bounds (length : Z) (start stop step : option Z) :
  0 <= length ->
  step_supported step ->
  exists start' stop',
    normalize_slice length start stop step = inr (start', stop')
    /\ 0 <= start' /\ start' <= stop' /\ stop' <= length.
Proof.
  intros Hlen [-> | ->]; unfold normalize_slice; cbn [Z.eqb Pos.eqb];
    (do 2 eexists; split; [reflexivity|]);
    destruct start as [s|], stop as [e|];
    repeat match goal with
           | |- context [?x <? 0] => destruct (Z.ltb_spec x 0)
           end; lia.
Qed.

Lemma normalize_slice_bounds_witness :
  exists start' stop',
    normalize_slice 6 (Some (-4)) (Some (-1)) None = inr (start', stop')
    /\ 0 <= start' /\ start' <= stop' /\ stop' <= 6.
Proof.
  apply (normalize_slice_bounds 6 (Some (-4)) (Some (-1)) None).
  - lia.
  - left; reflexivity.
Defined.

(** The docstring's example. *)
Example normalize_slice_docstring :
  normalize_slice 6 (Some (-4)) (Some (-1)) None = inr (2, 5).
Proof. reflexivity. Qed.

End SliceFacts.

(** ** State queries *)

Section QueryFacts.

Import Str.

Lemma split_not_nil (sep : ascii) (s : string) : split sep s <> [].
Proof.
  destruct s as [|c s]; simpl; [discriminate|].
  destruct (Ascii.eqb c sep); [discriminate|].
  destruct (split sep s); discriminate.
Qed.

Lemma split_first_token (sep : ascii) (s : string) :
  getitem (split sep s) 0 = inr (hd "" (split sep s)).
Proof.
  unfold getitem. pose proof (split_not_nil sep s) as Hne.
  destruct (split sep s); [contradiction | reflexivity].
Qed.

(** A string without the separator is a single token. *)
Lemma split_without_sep (sep : ascii) (s : string) :
  contains sep s = false -> split sep s = [s].
Proof.
  induction s as [|c s IH]; simpl; [reflexivity|].
  intros H. apply orb_false_iff in H as [Hc Hs].
  rewrite Hc, (IH Hs). reflexivity.
Qed.

(** Splitting peels the first token off at the first separator. *)
Lemma split_app_sep (sep : ascii) (s t : string) :
  contains sep s = false ->
  split sep (s ++ String sep t) = s :: split sep t.
Proof.
  induction s as [|c s IH]; simpl.
  - intros _. rewrite Ascii.eqb_refl. reflexivity.
  - intros H. apply orb_false_iff in H as [Hc Hs].
    rewrite Hc, (IH Hs). reflexivity.
Qed.

(** C9: when neither [ns] nor [name] contains [:], splitting
    [create_state_query ns name] on [:] gives back exactly [ns] and
    [name]. *)
Theorem split_create_state_query (ns name : string) :
  contains colon ns = false ->
  contains colon name = false ->
  split colon (create_state_query ns name) = [ns; name].
Proof.
  intros Hns Hname. unfold create_state_query.
  change (":" ++ name) with (String colon name).
  rewrite (split_app_sep colon ns name Hns).
  rewrite (split_without_sep colon name Hname). reflexivity.
Qed.

Lemma split_create_state_query_witness :
  split colon (create_state_query "modelA" "vocab") = ["modelA"; "vocab"].
Proof.
  apply (split_create_state_query "modelA" "vocab"); reflexivity.
Defined.

(** Without the side condition the pair is not recovered. *)
Example split_create_state_query_sep_in_name :
  split colon (create_state_query "a" "b:c") = ["a"; "b"; "c"].
Proof. reflexivity. Qed.

End QueryFacts.

(** ** Resource resolution *)

Section ResolverFacts.

Import Resolver.

Variables Obj Loc : Type.

Implicit Types (fs : filesystem Obj) (w : worker Obj Loc) (query : string).

(** *** The fan-out loop *)

Lemma search_known_workers_nil w query :
  search_known_workers w query [] = ([], inr None).
Proof. reflexivity. Qed.

(** A worker without a match is skipped. *)
Lemma search_known_workers_skip w query id location items :
  request_search w query location = inr [] ->
  search_known_workers w query ((id, location) :: items) =
  (RequestSearch query location :: fst (search_known_workers w query items),
   snd (search_known_workers w query items)).
Proof.
  intros Hreq. cbn. rewrite Hreq. cbn.
  destruct (search_known_workers w query items) as [t r]. reflexivity.
Qed.

(** A worker with a single match ends the loop. *)
Lemma search_known_workers_found w query id location items o :
  request_search w query location = inr [o] ->
  search_known_workers w query ((id, location) :: items) =
  ([RequestSearch query location], inr (Some o)).
Proof. intros Hreq. cbn. rewrite Hreq. reflexivity. Qed.

(** A worker with several matches trips the assertion. *)
Lemma search_known_workers_ambiguous w query id location items o o' os :
  request_search w query location = inr (o :: o' :: os) ->
  search_known_workers w query ((id, location) :: items) =
  ([RequestSearch query location], inl (AssertionError ambiguous_msg)).
Proof. intros Hreq. cbn. rewrite Hreq. reflexivity. Qed.

(** An exception raised by [request_search] leaves the loop. *)
Lemma search_known_workers_raise w query id location items e :
  request_search w query location = inl e ->
  search_known_workers w query ((id, location) :: items) =
  ([RequestSearch query location], inl e).
Proof. intros Hreq. cbn. rewrite Hreq. reflexivity. Qed.

(** Workers without a match, in front of the list, are each searched once
    and then the loop goes on with the rest. *)
Lemma search_known_workers_app w query pre items :
  (forall item, In item pre -> request_search w query (snd item) = inr []) ->
  search_known_workers w query (pre ++ items) =
  ((requests query pre ++ fst (search_known_workers w query items))%list,
   snd (search_known_workers w query items)).
Proof.
  induction pre as [|[id location] pre IH]; intros Hpre.
  - cbn [app requests map].
    destruct (search_known_workers w query items); reflexivity.
  - cbn [app]. rewrite search_known_workers_skip.
    + rewrite IH by (intros item Hin; apply Hpre; right; exact Hin).
      reflexivity.
    + apply (Hpre (id, location)). left; reflexivity.
Qed.

(** The loop issues nothing but remote searches. *)
Lemma search_known_workers_only_requests w query items :
  forallb is_request (fst (search_known_workers w query items)) = true.
Proof.
  induction items as [|[id location] items IH]; [reflexivity|].
  cbn. destruct (request_search w query location) as [e|[|o [|o' os]]]; cbn;
    try reflexivity.
  destruct (search_known_workers w query items); exact IH.
Qed.

(** *** The cache tier *)

Lemma cache_probe_only_disk fs query :
  forallb is_disk_call (@cache_probe Obj Loc fs query) = true.
Proof.
  unfold cache_probe. cbn.
  destruct (path_exists fs _); cbn; [|reflexivity].
  destruct (isfile fs _); reflexivity.
Qed.

Lemma cache_probe_no_request fs query :
  filter is_request (@cache_probe Obj Loc fs query) = [].
Proof.
  unfold cache_probe. cbn.
  destruct (path_exists fs _); cbn; [|reflexivity].
  destruct (isfile fs _); reflexivity.
Qed.

Lemma cache_probe_no_load fs query path :
  ~ In (OpenLoad path) (@cache_probe Obj Loc fs query).
Proof.
  unfold cache_probe.
  destruct (path_exists fs _); [destruct (isfile fs _)|]; cbn;
    intuition discriminate.
Qed.

Lemma filter_requests query (items : list (string * Loc)) :
  filter is_request (requests query items) = requests query items.
Proof.
  induction items as [|item items IH]; cbn; [reflexivity|].
  f_equal. exact IH.
Qed.

(** *** The three tiers together *)

(** What [search_resource] does once the local worker has no match. *)
Lemma search_resource_local_miss fs query w :
  search w query = inr [] ->
  search_resource fs query w =
  if cache_hit fs query then
    ((LocalSearch query :: cache_probe fs query ++ [OpenLoad (cache_file fs query)])%list,
     match load fs (cache_file fs query) with
     | inl e => inl e
     | inr simplified_state => inr (Some simplified_state)
     end)
  else
    ((LocalSearch query :: cache_probe fs query
        ++ fst (search_known_workers w query (known_workers w)))%list,
     snd (search_known_workers w query (known_workers w))).
Proof.
  intros Hlocal. unfold search_resource, cache_hit, cache_probe, cache_file, cache_dir.
  rewrite Hlocal. cbn -[Str.split Str.replace Str.path_join search_known_workers].
  rewrite split_first_token.
  cbn -[Str.split Str.replace Str.path_join search_known_workers].
  destruct (path_exists fs _);
    [destruct (isfile fs _); [destruct (0 <? getsize fs _)%Z|]|];
    cbn -[Str.split Str.replace Str.path_join search_known_workers];
    try (destruct (load fs _); reflexivity);
    destruct (search_known_workers w query (known_workers w)); reflexivity.
Qed.

(** C1: when the local worker's search returns exactly one match, that
    object is returned as the result, and the only call made is the local
    search: neither the disk cache nor any known worker is consulted. *)
Theorem search_resource_local_hit fs query w o :
  search w query = inr [o] ->
  search_resource fs query w = ([LocalSearch query], inr (Some o))
  /\ existsb is_disk_call (fst (search_resource fs query w)) = false
  /\ existsb is_request (fst (search_resource fs query w)) = false.
Proof.
  intros Hlocal.
  assert (Hrun : search_resource fs query w = ([LocalSearch query], inr (Some o))).
  { unfold search_resource. rewrite Hlocal. reflexivity. }
  rewrite Hrun. repeat split.
Qed.

(** C4: when the local worker's search returns more than one match, the
    assertion fails: [search_resource] raises, returns none of the matches,
    and the only call made is the local search (no cache read, no remote
    search). *)
Theorem search_resource_local_ambiguous fs query w matches :
  search w query = inr matches ->
  1 < List.length matches ->
  search_resource fs query w =
    ([LocalSearch query], inl (AssertionError ambiguous_msg))
  /\ existsb is_disk_call (fst (search_resource fs query w)) = false
  /\ existsb is_request (fst (search_resource fs query w)) = false.
Proof.
  intros Hlocal Hlen.
  assert (Hrun : search_resource fs query w =
                 ([LocalSearch query], inl (AssertionError ambiguous_msg))).
  { unfold search_resource. rewrite Hlocal.
    destruct matches as [|o [|o' os]]; cbn in Hlen; try lia. reflexivity. }
  rewrite Hrun. repeat split.
Qed.

(** Every run of the loop is of one of two kinds: all the workers listed
    answer with no match, or some first worker answers otherwise and the
    loop ends on that answer. *)
Lemma search_known_workers_cases w query items :
  ((forall item, In item items -> request_search w query (snd item) = inr [])
   /\ search_known_workers w query items = (requests query items, inr None))
  \/ exists pre id location post answer,
       items = (pre ++ (id, location) :: post)%list
       /\ (forall item, In item pre -> request_search w query (snd item) = inr [])
       /\ request_search w query location <> inr []
       /\ search_known_workers w query items =
            ((requests query pre ++ [RequestSearch query location])%list, answer)
       /\ (forall e, request_search w query location = inl e -> answer = inl e)
       /\ (forall o, request_search w query location = inr [o] -> answer = inr (Some o))
       /\ (forall o o' os, request_search w query location = inr (o :: o' :: os) ->
                           answer = inl (AssertionError ambiguous_msg)).
Proof.
  induction items as [|[id location] items IH].
  - left. split; [intros item []|reflexivity].
  - destruct (request_search w query location) as [e | [|o [|o' os]]] eqn:Hreq.
    + right. exists [], id, location, items, (inl e).
      rewrite Hreq.
      split; [reflexivity|]. split; [intros item []|]. split; [discriminate|].
      split; [exact (search_known_workers_raise w query id location items e Hreq)|].
      repeat split; try discriminate. intros e' [= <-]. reflexivity.
    + rewrite (search_known_workers_skip w query id location items Hreq).
      destruct IH as [[Hnone Hrun] | (pre & id' & location' & post & answer & Hitems
                                       & Hpre & Hne & Hrun & Hans)].
      * left. rewrite Hrun. split; [|reflexivity].
        intros item [<- | Hin]; [exact Hreq | exact (Hnone item Hin)].
      * right. exists ((id, location) :: pre), id', location', post, answer.
        split; [rewrite Hitems; reflexivity|].
        split; [intros item [<- | Hin]; [exact Hreq | exact (Hpre item Hin)]|].
        split; [exact Hne|].
        split; [rewrite Hrun; reflexivity | exact Hans].
    + right. exists [], id, location, items, (inr (Some o)).
      rewrite Hreq.
      split; [reflexivity|]. split; [intros item []|]. split; [discriminate|].
      split; [exact (search_known_workers_found w query id location items o Hreq)|].
      repeat split; try discriminate. intros o1 [= <-]. reflexivity.
    + right. exists [], id, location, items, (inl (AssertionError ambiguous_msg)).
      rewrite Hreq.
      split; [reflexivity|]. split; [intros item []|]. split; [discriminate|].
      split; [exact (search_known_workers_ambiguous w query id location items o o' os Hreq)|].
      repeat split; try discriminate.
Qed.

(** C6: with no local match, a cache file that is missing (no directory,
    or no regular file) or of zero length is a miss, not an error: nothing
    is loaded, and after the disk probes the known workers are sent remote
    searches, in their order.  Either every known worker is asked and
    answers with no match, and the result is [None]; or the workers are
    asked up to the first one whose answer is not an empty list, and the
    outcome is that answer: its exception, its single match, or the
    assertion failure for several matches. *)
Theorem search_resource_cache_miss fs query w :
  search w query = inr [] ->
  path_exists fs (cache_dir fs query) = false
  \/ isfile fs (cache_file fs query) = false
  \/ getsize fs (cache_file fs query) = 0%Z ->
  (forall path, ~ In (OpenLoad path) (fst (search_resource fs query w)))
  /\ (((forall item, In item (known_workers w) ->
                     request_search w query (snd item) = inr [])
       /\ search_resource fs query w =
            ((LocalSearch query :: cache_probe fs query
                ++ requests query (known_workers w))%list,
             inr None))
      \/ exists pre id location post answer,
           known_workers w = (pre ++ (id, location) :: post)%list
           /\ (forall item, In item pre -> request_search w query (snd item) = inr [])
           /\ request_search w query location <> inr []
           /\ search_resource fs query w =
                ((LocalSearch query :: cache_probe fs query
                    ++ requests query pre ++ [RequestSearch query location])%list,
                 answer)
           /\ (forall e, request_search w query location = inl e -> answer = inl e)
           /\ (forall o, request_search w query location = inr [o] ->
                         answer = inr (Some o))
           /\ (forall o o' os, request_search w query location = inr (o :: o' :: os) ->
                               answer = inl (AssertionError ambiguous_msg))).
Proof.
  intros Hlocal Hmiss.
  assert (Hhit : cache_hit fs query = false).
  { unfold cache_hit. destruct Hmiss as [-> | [-> | ->]].
    - reflexivity.
    - apply andb_false_iff. left. apply andb_false_r.
    - apply andb_false_r. }
  rewrite (search_resource_local_miss fs query w Hlocal), Hhit.
  split.
  - intros path [Habs | Hin]; [discriminate|]. cbn [fst] in Hin.
    apply in_app_or in Hin as [Hin | Hin].
    + exact (cache_probe_no_load fs query path Hin).
    + pose proof (search_known_workers_only_requests w query (known_workers w)) as Hreq.
      rewrite forallb_forall in Hreq. specialize (Hreq _ Hin). discriminate.
  - destruct (search_known_workers_cases w query (known_workers w))
      as [[Hnone Hrun] | (pre & id & location & post & answer & Hitems
                          & Hpre & Hne & Hrun & Hans)].
    + left. rewrite Hrun. split; [exact Hnone | reflexivity].
    + right. exists pre, id, location, post, answer.
      split; [exact Hitems|]. split; [exact Hpre|]. split; [exact Hne|].
      split; [rewrite Hrun; reflexivity | exact Hans].
Qed.

(** C7: with no local match and no cache hit, when the workers listed
    before [location] have no match and [location] returns exactly one,
    that match is returned at once: the remote searches issued are those
    to the workers before [location] and to [location] itself, and none
    to the workers after it. *)
Theorem search_resource_first_found fs query w pre id location post o :
  search w query = inr [] ->
  cache_hit fs query = false ->
  known_workers w = (pre ++ (id, location) :: post)%list ->
  (forall item, In item pre -> request_search w query (snd item) = inr []) ->
  request_search w query location = inr [o] ->
  search_resource fs query w =
    ((LocalSearch query :: cache_probe fs query
        ++ requests query pre ++ [RequestSearch query location])%list,
     inr (Some o))
  /\ filter is_request (fst (search_resource fs query w)) =
     requests query (pre ++ [(id, location)]).
Proof.
  intros Hlocal Hhit Hknown Hpre Hreq.
  assert (Hrun : search_resource fs query w =
    ((LocalSearch query :: cache_probe fs query
        ++ requests query pre ++ [RequestSearch query location])%list,
     inr (Some o))).
  { rewrite (search_resource_local_miss fs query w Hlocal), Hhit, Hknown.
    rewrite (search_known_workers_app w query pre _ Hpre).
    rewrite (search_known_workers_found w query id location post o Hreq).
    reflexivity. }
  split; [exact Hrun|]. rewrite Hrun. cbn [fst filter is_request].
  rewrite !filter_app, cache_probe_no_request, filter_requests.
  unfold requests. rewrite map_app. reflexivity.
Qed.

(** C5, as the code has it: with no local match and no cache hit, when the
    workers listed before [location] have no match and the request to
    [location] raises, [search_resource] raises that same exception, and
    the workers listed after [location] are not searched. *)
Theorem search_resource_transport_failure fs query w pre id location post e :
  search w query = inr [] ->
  cache_hit fs query = false ->
  known_workers w = (pre ++ (id, location) :: post)%list ->
  (forall item, In item pre -> request_search w query (snd item) = inr []) ->
  request_search w query location = inl e ->
  search_resource fs query w =
    ((LocalSearch query :: cache_probe fs query
        ++ requests query pre ++ [RequestSearch query location])%list,
     inl e)
  /\ filter is_request (fst (search_resource fs query w)) =
     requests query (pre ++ [(id, location)]).
Proof.
  intros Hlocal Hhit Hknown Hpre Hreq.
  assert (Hrun : search_resource fs query w =
    ((LocalSearch query :: cache_probe fs query
        ++ requests query pre ++ [RequestSearch query location])%list,
     inl e)).
  { rewrite (search_resource_local_miss fs query w Hlocal), Hhit, Hknown.
    rewrite (search_known_workers_app w query pre _ Hpre).
    rewrite (search_known_workers_raise w query id location post e Hreq).
    reflexivity. }
  split; [exact Hrun|]. rewrite Hrun. cbn [fst filter is_request].
  rewrite !filter_app, cache_probe_no_request, filter_requests.
  unfold requests. rewrite map_app. reflexivity.
Qed.

End ResolverFacts.

Lemma search_resource_local_hit_witness :
  Resolver.search_resource Examples.no_cache Examples.query Examples.holds_locally =
  ([Resolver.LocalSearch Examples.query], inr (Some 7))
  /\ existsb Resolver.is_disk_call
     (fst (Resolver.search_resource Examples.no_cache Examples.query
             Examples.holds_locally)) = false
  /\ existsb Resolver.is_request
     (fst (Resolver.search_resource Examples.no_cache Examples.query
             Examples.holds_locally)) = false.
Proof.
  apply (search_resource_local_hit nat string Examples.no_cache Examples.query
         Examples.holds_locally 7).
  reflexivity.
Defined.

Lemma search_resource_local_ambiguous_witness :
  Resolver.search_resource Examples.no_cache Examples.query Examples.ambiguous_locally =
  ([Resolver.LocalSearch Examples.query],
   inl (AssertionError Resolver.ambiguous_msg))
  /\ existsb Resolver.is_disk_call
     (fst (Resolver.search_resource Examples.no_cache Examples.query
             Examples.ambiguous_locally)) = false
  /\ existsb Resolver.is_request
     (fst (Resolver.search_resource Examples.no_cache Examples.query
             Examples.ambiguous_locally)) = false.
Proof.
  apply (search_resource_local_ambiguous nat string Examples.no_cache Examples.query
         Examples.ambiguous_locally [7; 9]).
  - reflexivity.
  - simpl. lia.
Defined.

Lemma search_resource_cache_miss_witness :
  (forall path,
     ~ In (Resolver.OpenLoad path)
          (fst (Resolver.search_resource Examples.empty_cache_file Examples.query
                  Examples.bob_holds)))
  /\ (((forall item, In item (Resolver.known_workers Examples.bob_holds) ->
          Resolver.request_search Examples.bob_holds Examples.query (snd item) = inr [])
       /\ Resolver.search_resource Examples.empty_cache_file Examples.query
            Examples.bob_holds =
          ((Resolver.LocalSearch Examples.query
              :: Resolver.cache_probe Examples.empty_cache_file Examples.query
              ++ Resolver.requests Examples.query
                   (Resolver.known_workers Examples.bob_holds))%list,
           inr None))
      \/ exists pre id location post answer,
           Resolver.known_workers Examples.bob_holds = (pre ++ (id, location) :: post)%list
           /\ (forall item, In item pre ->
                 Resolver.request_search Examples.bob_holds Examples.query (snd item)
                 = inr [])
           /\ Resolver.request_search Examples.bob_holds Examples.query location <> inr []
           /\ Resolver.search_resource Examples.empty_cache_file Examples.query
                Examples.bob_holds =
              ((Resolver.LocalSearch Examples.query
                  :: Resolver.cache_probe Examples.empty_cache_file Examples.query
                  ++ Resolver.requests Examples.query pre
                  ++ [Resolver.RequestSearch Examples.query location])%list,
               answer)
           /\ (forall e,
                 Resolver.request_search Examples.bob_holds Examples.query location = inl e ->
                 answer = inl e)
           /\ (forall o,
                 Resolver.request_search Examples.bob_holds Examples.query location = inr [o] ->
                 answer = inr (Some o))
           /\ (forall o o' os,
                 Resolver.request_search Examples.bob_holds Examples.query location
                 = inr (o :: o' :: os) ->
                 answer = inl (AssertionError Resolver.ambiguous_msg))).
Proof.
  apply (search_resource_cache_miss nat string Examples.empty_cache_file Examples.query
           Examples.bob_holds).
  - reflexivity.
  - right; right; reflexivity.
Defined.

(** The run behind the witness above, spelled out: the directory and the
  file are found, the size is read, nothing is loaded, and the search
  goes to [me], [alice] and [bob]. *)
Example search_resource_empty_cache_file_run :
  Resolver.search_resource Examples.empty_cache_file Examples.query Examples.bob_holds =
  ([Resolver.LocalSearch "modelA:vocab";
    Resolver.PathExists "/home/user/SyferText/cache/modelA";
    Resolver.IsFile "/home/user/SyferText/cache/modelA/modelA-vocab.pkl";
    Resolver.GetSize "/home/user/SyferText/cache/modelA/modelA-vocab.pkl";
    Resolver.RequestSearch "modelA:vocab" "me";
    Resolver.RequestSearch "modelA:vocab" "alice";
    Resolver.RequestSearch "modelA:vocab" "bob"],
   inr (Some 42)).
Proof. reflexivity. Qed.

Lemma search_resource_first_found_witness :
  Resolver.search_resource Examples.no_cache Examples.query Examples.bob_holds =
  ((Resolver.LocalSearch Examples.query
      :: Resolver.cache_probe Examples.no_cache Examples.query
      ++ Resolver.requests Examples.query [("me", "me"); ("alice", "alice")]
      ++ [Resolver.RequestSearch Examples.query "bob"])%list,
   inr (Some 42))
  /\ filter Resolver.is_request
     (fst (Resolver.search_resource Examples.no_cache Examples.query
             Examples.bob_holds)) =
   Resolver.requests Examples.query
     ([("me", "me"); ("alice", "alice")] ++ [("bob", "bob")]).
Proof.
  apply (search_resource_first_found nat string Examples.no_cache Examples.query
         Examples.bob_holds [("me", "me"); ("alice", "alice")] "bob" "bob"
         [("carol", "carol")] 42).
  - reflexivity.
  - reflexivity.
  - reflexivity.
  - intros item [<- | [<- | []]]; reflexivity.
  - reflexivity.
Defined.

Lemma search_resource_transport_failure_witness :
  Resolver.search_resource Examples.no_cache Examples.query Examples.alice_unreachable =
  ((Resolver.LocalSearch Examples.query
      :: Resolver.cache_probe Examples.no_cache Examples.query
      ++ Resolver.requests Examples.query [("me", "me")]
      ++ [Resolver.RequestSearch Examples.query "alice"])%list,
   inl (RemoteError "ConnectionError"))
  /\ filter Resolver.is_request
     (fst (Resolver.search_resource Examples.no_cache Examples.query
             Examples.alice_unreachable)) =
   Resolver.requests Examples.query ([("me", "me")] ++ [("alice", "alice")]).
Proof.
  apply (search_resource_transport_failure nat string Examples.no_cache Examples.query
         Examples.alice_unreachable [("me", "me")] "alice" "alice"
         [("bob", "bob"); ("carol", "carol")] (RemoteError "ConnectionError")).
  - reflexivity.
  - reflexivity.
  - reflexivity.
  - intros item [<- | []]; reflexivity.
  - reflexivity.
Defined.

(** C5 fails on the code: the request to [alice] raises, [bob] is a known
  worker listed after her and would return one match, yet
  [search_resource] ends with the exception and [bob] is never
  searched. *)
Lemma search_resource_transport_failure_aborts :
  Resolver.request_search Examples.alice_unreachable Examples.query "alice"
  = inl (RemoteError "ConnectionError")
  /\ In ("bob", "bob") (Resolver.known_workers Examples.alice_unreachable)
  /\ Resolver.request_search Examples.alice_unreachable Examples.query "bob" = inr [42]
  /\ snd (Resolver.search_resource Examples.no_cache Examples.query
          Examples.alice_unreachable)
   = inl (RemoteError "ConnectionError")
  /\ ~ In (Resolver.RequestSearch Examples.query "bob")
        (fst (Resolver.search_resource Examples.no_cache Examples.query
                Examples.alice_unreachable)).
Proof.
  repeat split; try reflexivity.
  - cbn. tauto.
  - cbn. intros [H | [H | [H | [H | []]]]]; discriminate H.
Qed.

(** ** Choice of the SMPC participants *)

Section ChoiceFacts.

Import Mpc.

Variable A : Type.
Variable default : A.
Variable rng : nat -> nat.

Lemma remove_at_incl (i : nat) (l : list A) (x : A) :
  In x (remove_at i l) -> In x l.
Proof.
  revert i. induction l as [|y l IH]; intros [|i]; simpl; auto.
  intros [-> | Hin]; eauto.
Qed.

Lemma remove_at_length (i : nat) (l : list A) :
  i < List.length l -> S (List.length (remove_at i l)) = List.length l.
Proof.
  revert i. induction l as [|y l IH]; intros [|i]; simpl; try lia.
  intros Hi. rewrite IH by lia. reflexivity.
Qed.

Lemma remove_at_NoDup (i : nat) (l : list A) :
  NoDup l -> NoDup (remove_at i l).
Proof.
  revert i. induction l as [|y l IH]; intros [|i] Hnd; simpl;
    try exact Hnd; inversion Hnd as [|? ? Hy Hl]; subst; auto.
  constructor; [|apply IH; exact Hl].
  intros Hin. apply Hy. eapply remove_at_incl; exact Hin.
Qed.

Lemma nth_not_in_remove_at (i : nat) (l : list A) :
  NoDup l -> i < List.length l -> ~ In (nth i l default) (remove_at i l).
Proof.
  revert i. induction l as [|y l IH]; intros [|i] Hnd Hi; simpl in *; try lia;
    inversion Hnd as [|? ? Hy Hl]; subst.
  - exact Hy.
  - intros [Heq | Hin].
    + apply Hy. rewrite Heq. apply nth_In. lia.
    + apply (IH i Hl); [lia | exact Hin].
Qed.

Lemma draw_in_range (draw : nat) (pool : list A) :
  0 < List.length pool -> rng draw mod List.length pool < List.length pool.
Proof. intros Hpos. apply Nat.mod_upper_bound. lia. Qed.

Lemma sample_length (draw : nat) (pool : list A) (size : nat) :
  List.length (sample default rng draw pool size) = size.
Proof.
  revert draw pool. induction size as [|size IH]; intros; simpl; auto.
Qed.

(** Every element drawn comes from the pool. *)
Lemma sample_incl (size draw : nat) (pool : list A) (x : A) :
  size <= List.length pool ->
  In x (sample default rng draw pool size) -> In x pool.
Proof.
  revert draw pool. induction size as [|size IH]; intros draw pool Hsize; simpl.
  - tauto.
  - pose proof (draw_in_range draw pool ltac:(lia)) as Hi.
    intros [<- | Hin].
    + apply nth_In. exact Hi.
    + apply (remove_at_incl (rng draw mod List.length pool)).
      apply (IH (S draw)); [|exact Hin].
      pose proof (remove_at_length _ _ Hi). lia.
Qed.

(** No element is drawn twice: the draw is without replacement. *)
Lemma sample_NoDup (size draw : nat) (pool : list A) :
  NoDup pool -> size <= List.length pool ->
  NoDup (sample default rng draw pool size).
Proof.
  revert draw pool. induction size as [|size IH]; intros draw pool Hnd Hsize; simpl.
  - constructor.
  - pose proof (draw_in_range draw pool ltac:(lia)) as Hi.
    pose proof (remove_at_length _ _ Hi) as Hlen.
    constructor.
    + intros Hin. apply (nth_not_in_remove_at _ _ Hnd Hi).
      apply (sample_incl size (S draw)); [lia | exact Hin].
    + apply IH; [apply remove_at_NoDup; exact Hnd | lia].
Qed.

End ChoiceFacts.

Section NumpyFacts.

Import Mpc.

Variable rng : nat -> nat.

(** A string that does not end in NUL comes back from numpy as it went in. *)
Lemma np_str_kept (s : string) : ends_in_nul s = false -> np_str s = s.
Proof.
  induction s as [|c [|d rest] IH]; intros Hend.
  - reflexivity.
  - cbn in *. rewrite Hend. reflexivity.
  - change (ends_in_nul (String d rest) = false) in Hend.
    change (np_str (String c (String d rest)))
      with (match np_str (String d rest) with
            | EmptyString => if Ascii.eqb c Ascii.zero then EmptyString
                             else String c EmptyString
            | kept => String c kept
            end).
    rewrite (IH Hend). reflexivity.
Qed.

Lemma random_choice_enough (a : list string) (size : nat) :
  size <= List.length a ->
  random_choice rng a size = inr (map np_str (sample "" rng 0 a size)).
Proof.
  intros Hsize. unfold random_choice.
  destruct (Nat.ltb_spec (List.length a) size); [lia | reflexivity].
Qed.

(** When no string of [a] ends in NUL the choice consists of strings of
    [a] themselves. *)
Lemma random_choice_kept (a : list string) (size : nat) :
  size <= List.length a ->
  (forall id, In id a -> ends_in_nul id = false) ->
  random_choice rng a size = inr (sample "" rng 0 a size).
Proof.
  intros Hsize Hsafe. rewrite (random_choice_enough a size Hsize).
  f_equal. rewrite <- (map_id (sample "" rng 0 a size)) at 2.
  apply map_ext_in. intros id Hin. apply np_str_kept, Hsafe.
  exact (sample_incl _ "" rng size 0 a id Hsize Hin).
Qed.

End NumpyFacts.

Section DictFacts.

Import Mpc.

Variable V : Type.

Implicit Types (d : dict V) (k : string) (v : V).

Lemma lookup_of_key d k : In k (keys d) -> exists v, lookup d k = Some v.
Proof.
  induction d as [|[k' v'] d IH]; simpl; [tauto|].
  intros [-> | Hin].
  - rewrite String.eqb_refl. eauto.
  - destruct (String.eqb k' k); eauto.
Qed.

Lemma lookup_In d k v : lookup d k = Some v -> In (k, v) d.
Proof.
  induction d as [|[k' v'] d IH]; simpl; [discriminate|].
  destruct (String.eqb_spec k' k) as [-> | _].
  - intros [= ->]. left; reflexivity.
  - intros H. right. exact (IH H).
Qed.

Lemma keys_filter (f : string -> bool) d :
  keys (filter (fun item => f (fst item)) d) = filter f (keys d).
Proof.
  induction d as [|[k v] d IH]; simpl; [reflexivity|].
  destruct (f k); simpl; rewrite IH; reflexivity.
Qed.

End DictFacts.

Section MpcFacts.

Import Mpc.

Variable W : Type.
Variable rng : nat -> nat.

Implicit Types (all_workers : dict W).

Lemma eligible_In all_workers id w :
  In (id, w) (known_workers_except_me all_workers) ->
  id <> "me" /\ In (id, w) all_workers.
Proof.
  unfold known_workers_except_me. rewrite filter_In. cbn [fst].
  intros [Hin Hid]. split; [|exact Hin].
  intros ->. discriminate Hid.
Qed.

Lemma eligible_well_formed all_workers :
  well_formed all_workers -> well_formed (known_workers_except_me all_workers).
Proof.
  unfold well_formed, known_workers_except_me. intros Hnd.
  rewrite (keys_filter W (fun k => negb (String.eqb k "me"))).
  apply NoDup_filter. exact Hnd.
Qed.

(** Three ids that are keys of [known_workers] fill [node_0], [node_1]
    and [node_2], in that order. *)
Lemma assign_nodes_three (known_workers : dict W) id0 id1 id2 w0 w1 w2 :
  lookup known_workers id0 = Some w0 ->
  lookup known_workers id1 = Some w1 ->
  lookup known_workers id2 = Some w2 ->
  assign_nodes known_workers 0 [id0; id1; id2] [] =
    inr [("node_0", w0); ("node_1", w1); ("node_2", w2)].
Proof.
  intros H0 H1 H2. cbn [assign_nodes bind outcome_monad]. unfold dict_getitem.
  rewrite H0, H1, H2. reflexivity.
Qed.

(** With no eligible worker the configuration is the empty dict. *)
Lemma create_mpc_config_none_eligible all_workers :
  known_workers_except_me all_workers = [] ->
  create_mpc_config rng all_workers = inr (Some []).
Proof. intros Hk. unfold create_mpc_config. rewrite Hk. reflexivity. Qed.

(** With two eligible workers both hold shares, and the second one is
    stored once more under [node_2]. *)
Lemma create_mpc_config_two_eligible all_workers a wa b wb :
  known_workers_except_me all_workers = [(a, wa); (b, wb)] ->
  a <> b ->
  create_mpc_config rng all_workers =
    inr (Some [("node_0", wa); ("node_1", wb); ("node_2", wb)]).
Proof.
  intros Hk Hab. unfold create_mpc_config. rewrite Hk.
  cbn. unfold dict_getitem. cbn. rewrite !String.eqb_refl.
  destruct (String.eqb_spec a b) as [Heq | _]; [contradiction|]. reflexivity.
Qed.

(** With three or more eligible workers whose ids numpy hands back
    unchanged, three of them, pairwise distinct and none of them [me], are
    stored under [node_0], [node_1] and [node_2]. *)
Lemma create_mpc_config_three_or_more all_workers :
  well_formed all_workers ->
  no_id_ends_in_nul all_workers ->
  3 <= List.length (known_workers_except_me all_workers) ->
  exists id0 id1 id2 w0 w1 w2,
    create_mpc_config rng all_workers =
      inr (Some [("node_0", w0); ("node_1", w1); ("node_2", w2)])
    /\ NoDup [id0; id1; id2]
    /\ (In (id0, w0) all_workers /\ id0 <> "me")
    /\ (In (id1, w1) all_workers /\ id1 <> "me")
    /\ (In (id2, w2) all_workers /\ id2 <> "me").
Proof.
  intros Hwf Hsafe Hlen. unfold no_id_ends_in_nul in Hsafe. unfold create_mpc_config.
  set (known_workers := known_workers_except_me all_workers) in *.
  assert (Hkeys : List.length (keys known_workers) = List.length known_workers)
    by apply length_map.
  destruct (Nat.eqb_spec (List.length known_workers) 1) as [|_]; [lia|].
  destruct (Nat.eqb_spec (List.length known_workers) 2) as [|_]; [lia|].
  destruct (Nat.leb_spec 3 (List.length known_workers)) as [_|]; [|lia].
  cbn [bind ret outcome_monad].
  rewrite (random_choice_kept rng (keys known_workers) 3 ltac:(lia) Hsafe).
  pose proof (sample_length _ "" rng 0 (keys known_workers) 3) as Hsl.
  pose proof (sample_NoDup _ "" rng 3 0 (keys known_workers)
                (eligible_well_formed _ Hwf) ltac:(lia)) as Hsnd.
  pose proof (fun x => sample_incl _ "" rng 3 0 (keys known_workers) x ltac:(lia))
    as Hsin.
  destruct (sample "" rng 0 (keys known_workers) 3)
    as [|id0 [|id1 [|id2 [|? ?]]]]; try discriminate Hsl.
  destruct (lookup_of_key _ known_workers id0) as [w0 H0];
    [apply Hsin; cbn; tauto|].
  destruct (lookup_of_key _ known_workers id1) as [w1 H1];
    [apply Hsin; cbn; tauto|].
  destruct (lookup_of_key _ known_workers id2) as [w2 H2];
    [apply Hsin; cbn; tauto|].
  rewrite (assign_nodes_three known_workers id0 id1 id2 w0 w1 w2 H0 H1 H2).
  exists id0, id1, id2, w0, w1, w2.
  split; [reflexivity|]. split; [exact Hsnd|].
  repeat split;
    match goal with
    | |- In (?id, ?w) _ => apply (eligible_In all_workers id w), lookup_In; assumption
    | |- ?id <> _ =>
        match goal with
        | H : lookup _ id = Some ?w |- _ =>
            apply (eligible_In all_workers id w), lookup_In; exact H
        end
    end.
Qed.

(** Ids that are keys of [known_workers] are all assigned. *)
Lemma assign_nodes_of_keys (known_workers : dict W) ids i cfg :
  (forall id, In id ids -> In id (keys known_workers)) ->
  exists cfg', assign_nodes known_workers i ids cfg = inr cfg'.
Proof.
  revert i cfg. induction ids as [|id ids IH]; intros i cfg Hids; cbn [assign_nodes].
  - cbn. eauto.
  - destruct (lookup_of_key _ known_workers id) as [w Hw];
      [apply Hids; left; reflexivity|].
    unfold dict_getitem. rewrite Hw. cbn [bind outcome_monad].
    apply IH. intros id' Hin. apply Hids. right. exact Hin.
Qed.

(** On a registry whose eligible ids numpy hands back unchanged the
    selector runs to completion: no lookup fails and numpy is never asked
    for more ids than there are. *)
Lemma create_mpc_config_returns all_workers :
  no_id_ends_in_nul all_workers ->
  exists r, create_mpc_config rng all_workers = inr r.
Proof.
  unfold no_id_ends_in_nul.
  destruct (known_workers_except_me all_workers)
    as [|[a wa] [|[b wb] [|[c wc] rest]]] eqn:Hk; intros Hsafe.
  - rewrite (create_mpc_config_none_eligible _ Hk). eauto.
  - unfold create_mpc_config. rewrite Hk. cbn. eauto.
  - unfold create_mpc_config. rewrite Hk. cbn. unfold dict_getitem. cbn.
    rewrite !String.eqb_refl. destruct (String.eqb a b); cbn; eauto.
  - unfold create_mpc_config. rewrite Hk.
    set (known_workers := (a, wa) :: (b, wb) :: (c, wc) :: rest) in *.
    assert (Hlen : 3 <= List.length (keys known_workers))
      by (cbn; lia).
    change (List.length known_workers =? 1)%nat with false.
    change (List.length known_workers =? 2)%nat with false.
    change (3 <=? List.length known_workers)%nat with true.
    cbn [bind ret outcome_monad].
    rewrite (random_choice_kept rng (keys known_workers) 3 Hlen Hsafe).
    destruct (assign_nodes_of_keys known_workers
                (sample "" rng 0 (keys known_workers) 3) 0 [])
      as [cfg' Hcfg].
    { intros id. apply sample_incl. exact Hlen. }
    rewrite Hcfg. eauto.
Qed.

(** C8, as the code has it: a registry with exactly one eligible worker
    gives [None]; a registry with no eligible worker gives the empty
    configuration; and on every registry in which no id of an eligible
    worker ends in a NUL character the selector returns a value and raises
    nothing. *)
Theorem create_mpc_config_insufficient all_workers :
  (List.length (known_workers_except_me all_workers) = 1 ->
   create_mpc_config rng all_workers = inr None)
  /\ (List.length (known_workers_except_me all_workers) = 0 ->
      create_mpc_config rng all_workers = inr (Some []))
  /\ (no_id_ends_in_nul all_workers ->
      exists r, create_mpc_config rng all_workers = inr r).
Proof.
  split; [|split].
  - intros Hone. unfold create_mpc_config. rewrite Hone. reflexivity.
  - intros Hzero. apply create_mpc_config_none_eligible.
    destruct (known_workers_except_me all_workers); [reflexivity | discriminate Hzero].
  - apply create_mpc_config_returns.
Qed.

End MpcFacts.

Lemma registry_four_no_nul : Mpc.no_id_ends_in_nul Examples.registry_four.
Proof.
  intros id Hin. cbn in Hin.
  destruct Hin as [<- | [<- | [<- | [<- | []]]]]; reflexivity.
Defined.

Lemma create_mpc_config_insufficient_witness :
  Mpc.create_mpc_config Examples.odd_draws Examples.registry_one = inr None
  /\ Mpc.create_mpc_config Examples.odd_draws [("me", 0)] = inr (Some [])
  /\ (exists r, Mpc.create_mpc_config Examples.odd_draws Examples.registry_four = inr r).
Proof.
  split; [|split].
  - apply (proj1 (create_mpc_config_insufficient nat Examples.odd_draws
                    Examples.registry_one)).
    reflexivity.
  - apply (proj1 (proj2 (create_mpc_config_insufficient nat Examples.odd_draws
                           [("me", 0)]))).
    reflexivity.
  - apply (proj2 (proj2 (create_mpc_config_insufficient nat Examples.odd_draws
                           Examples.registry_four))).
    exact registry_four_no_nul.
Defined.

(** C8 fails on the code: the id [a] followed by NUL comes back from numpy
    as [a], which is no key of the registry, and the lookup raises
    [KeyError]; and with nobody but [me] the shortage of workers shows as
    the empty configuration, not as [None]. *)
Lemma create_mpc_config_raises_on_nul_id :
  Mpc.create_mpc_config Examples.odd_draws Scenarios.registry_nul = inl (KeyError "a")
  /\ Mpc.create_mpc_config Examples.odd_draws [("me", 0)] = inr (Some []).
Proof. split; reflexivity. Qed.

(** With nobody but [me] in the registry the result is the empty
  configuration: still no exception, and not [None]. *)
Example create_mpc_config_alone :
  Mpc.create_mpc_config Examples.odd_draws [("me", 0)] = inr (Some []).
Proof. reflexivity. Qed.

(** C2, on the code: with the two eligible workers [alice] and [bob], the
  configuration returned has the keys [node_0], [node_1] and [node_2];
  [node_2] holds the same worker as [node_1], and there is no
  [crypto_provider] key, although the docstring of [create_mpc_config]
  names that key for the crypto provider. *)
Theorem create_mpc_config_two_has_no_crypto_provider :
  exists mpc_config,
  Mpc.create_mpc_config Examples.odd_draws Examples.registry_two = inr (Some mpc_config)
  /\ mpc_config = [("node_0", 1); ("node_1", 2); ("node_2", 2)]
  /\ Mpc.lookup mpc_config "node_2" = Mpc.lookup mpc_config "node_1"
  /\ Mpc.lookup mpc_config "crypto_provider" = None.
Proof. eexists. repeat split. Qed.

(** C3, on the code: with the four eligible workers [alice], [bob],
  [carol] and [dave], the configuration returned holds three distinct
  eligible workers under the keys [node_0], [node_1] and [node_2]; there
  is no [crypto_provider] key, although the docstring of
  [create_mpc_config] names that key for the crypto provider. *)
Theorem create_mpc_config_three_has_no_crypto_provider :
  exists mpc_config,
  Mpc.create_mpc_config Examples.odd_draws Examples.registry_four = inr (Some mpc_config)
  /\ mpc_config = [("node_0", 2); ("node_1", 1); ("node_2", 4)]
  /\ Mpc.keys mpc_config = ["node_0"; "node_1"; "node_2"]
  /\ Mpc.lookup mpc_config "crypto_provider" = None.
Proof. eexists. repeat split. Qed.

(** * Further properties *)

(** ** Slice normalisation *)

Section SliceMore.

Import Slice.
Local Open Scope Z_scope.

(** X1: a [step] other than [None] and [1] (zero and negative steps
    included) fails the assertion, whatever the other arguments are. *)
Theorem normalize_slice_rejects_step (length : Z) (start stop : option Z) (k : Z) :
  k <> 1 ->
  normalize_slice length start stop (Some k) =
    inl (AssertionError "Stepped slices with steps greater than one are not supported").
Proof.
  intros Hk. unfold normalize_slice.
  destruct (Z.eqb_spec k 1) as [Heq | _]; [contradiction | reflexivity].
Qed.

Lemma normalize_slice_rejects_step_witness :
  normalize_slice 6 (Some 0) None (Some (-1)) =
    inl (AssertionError "Stepped slices with steps greater than one are not supported").
Proof. apply (normalize_slice_rejects_step 6 (Some 0) None (-1)). lia. Defined.

(** X2: boundaries that already satisfy [0 <= start <= stop <= length] are
    returned unchanged. *)
Theorem normalize_slice_in_range (length start stop : Z) (step : option Z) :
  step_supported step ->
  0 <= start -> start <= stop -> stop <= length ->
  normalize_slice length (Some start) (Some stop) step = inr (start, stop).
Proof.
  intros [-> | ->] H0 H1 H2; unfold normalize_slice; cbn [Z.eqb Pos.eqb];
    destruct (Z.ltb_spec start 0); destruct (Z.ltb_spec stop 0); try lia;
    f_equal; f_equal; lia.
Qed.

Lemma normalize_slice_in_range_witness :
  normalize_slice 6 (Some 2) (Some 5) (Some 1) = inr (2, 5).
Proof.
  apply (normalize_slice_in_range 6 2 5 (Some 1)); try lia.
  right; reflexivity.
Defined.

(** X3: negative boundaries that reach no further back than the start of
    the document count from its end: each is shifted by [length]. *)
Theorem normalize_slice_from_end (length start stop : Z) (step : option Z) :
  step_supported step ->
  - length <= start -> start <= stop -> stop < 0 ->
  normalize_slice length (Some start) (Some stop) step =
    inr (start + length, stop + length).
Proof.
  intros [-> | ->] H0 H1 H2; unfold normalize_slice; cbn [Z.eqb Pos.eqb];
    destruct (Z.ltb_spec start 0); destruct (Z.ltb_spec stop 0); try lia;
    f_equal; f_equal; lia.
Qed.

Lemma normalize_slice_from_end_witness :
  normalize_slice 6 (Some (-4)) (Some (-1)) None = inr (-4 + 6, -1 + 6).
Proof.
  apply (normalize_slice_from_end 6 (-4) (-1) None); try lia.
  left; reflexivity.
Defined.

(** X4: boundaries beyond the document are clamped: a start at or before
    [-length] becomes [0] and a stop at or after [length] becomes [length],
    as do the defaults taken for [None]. *)
Theorem normalize_slice_clamps (length start stop : Z) (step : option Z) :
  step_supported step ->
  0 <= length -> start <= - length -> length <= stop ->
  normalize_slice length (Some start) (Some stop) step = inr (0, length)
  /\ normalize_slice length None None step = inr (0, length).
Proof.
  intros [-> | ->] H0 H1 H2; unfold normalize_slice; cbn [Z.eqb Pos.eqb];
    destruct (Z.ltb_spec start 0); destruct (Z.ltb_spec stop 0);
    split; f_equal; f_equal; lia.
Qed.

Lemma normalize_slice_clamps_witness :
  normalize_slice 6 (Some (-100)) (Some 100) None = inr (0, 6)
  /\ normalize_slice 6 None None None = inr (0, 6).
Proof.
  apply (normalize_slice_clamps 6 (-100) 100 None); try lia.
  left; reflexivity.
Defined.

(** X5: when the stop does not lie after the start the slice is empty: both
    results are the clamped start. *)
Theorem normalize_slice_reversed (length start stop : Z) (step : option Z) :
  step_supported step ->
  0 <= length -> 0 <= stop -> stop <= start ->
  normalize_slice length (Some start) (Some stop) step =
    inr (Z.min length start, Z.min length start).
Proof.
  intros [-> | ->] H0 H1 H2; unfold normalize_slice; cbn [Z.eqb Pos.eqb];
    destruct (Z.ltb_spec start 0); destruct (Z.ltb_spec stop 0); try lia;
    f_equal; f_equal; lia.
Qed.

Lemma normalize_slice_reversed_witness :
  normalize_slice 6 (Some 4) (Some 2) None = inr (Z.min 6 4, Z.min 6 4).
Proof.
  apply (normalize_slice_reversed 6 4 2 None); try lia.
  left; reflexivity.
Defined.

(** X6: normalising is idempotent: feeding the pair it returned back in,
    for the same length, returns that pair. *)
Theorem normalize_slice_idempotent (length : Z) (start stop step : option Z)
    (start' stop' : Z) :
  0 <= length ->
  normalize_slice length start stop step = inr (start', stop') ->
  normalize_slice length (Some start') (Some stop') step = inr (start', stop').
Proof.
  intros Hlen. unfold normalize_slice.
  destruct (match step with None => true | Some k => k =? 1 end); [|discriminate].
  intros [= <- <-].
  destruct start as [s|], stop as [e|];
    repeat match goal with
           | |- context [?x <? 0] => destruct (Z.ltb_spec x 0)
           end; f_equal; f_equal; lia.
Qed.

Lemma normalize_slice_idempotent_witness :
  normalize_slice 6 (Some 2) (Some 5) None = inr (2, 5).
Proof.
  apply (normalize_slice_idempotent 6 (Some (-4)) (Some (-1)) None 2 5).
  - lia.
  - reflexivity.
Defined.

End SliceMore.

(** ** Where the cache tier looks *)

Section StringFacts.

Import Str.

Lemma append_assoc (a b c : string) : (a ++ b) ++ c = a ++ (b ++ c).
Proof. induction a as [|x a IH]; simpl; [reflexivity | rewrite IH; reflexivity]. Qed.

Lemma append_length (a b : string) :
  String.length (a ++ b) = String.length a + String.length b.
Proof. induction a as [|x a IH]; simpl; [reflexivity | rewrite IH; reflexivity]. Qed.

Lemma append_inv_head (a b c : string) : a ++ b = a ++ c -> b = c.
Proof.
  induction a as [|x a IH]; simpl; [tauto|].
  intros [= H]. exact (IH H).
Qed.

Lemma append_inv_tail (a b t : string) : a ++ t = b ++ t -> a = b.
Proof.
  revert b. induction a as [|x a IH]; intros [|y b] H; simpl in H.
  - reflexivity.
  - apply (f_equal String.length) in H. simpl in H.
    rewrite append_length in H. lia.
  - apply (f_equal String.length) in H. simpl in H.
    rewrite append_length in H. lia.
  - injection H as -> H. rewrite (IH b H). reflexivity.
Qed.

(** Two strings cut at their first separator agree piece by piece. *)
Lemma append_sep_inj (sep : ascii) (a b x y : string) :
  contains sep a = false -> contains sep b = false ->
  a ++ String sep x = b ++ String sep y -> a = b /\ x = y.
Proof.
  revert b. induction a as [|c a IH]; intros [|d b] Ha Hb H; simpl in *.
  - injection H as ->. tauto.
  - injection H as <- _. rewrite Ascii.eqb_refl in Hb. discriminate.
  - injection H as -> _. rewrite Ascii.eqb_refl in Ha. discriminate.
  - injection H as -> H.
    apply orb_false_iff in Ha as [_ Ha]. apply orb_false_iff in Hb as [_ Hb].
    destruct (IH b Ha Hb H) as [-> ->]. tauto.
Qed.

Lemma replace_app (old new : ascii) (a b : string) :
  replace old new (a ++ b) = replace old new a ++ replace old new b.
Proof. induction a as [|x a IH]; simpl; [reflexivity | rewrite IH; reflexivity]. Qed.

Lemma replace_without (old new : ascii) (s : string) :
  contains old s = false -> replace old new s = s.
Proof.
  induction s as [|x s IH]; simpl; [reflexivity|].
  intros H. apply orb_false_iff in H as [Hx Hs]. rewrite Hx, (IH Hs). reflexivity.
Qed.

Lemma replace_create_state_query (ns name : string) :
  contains colon ns = false -> contains colon name = false ->
  replace colon dash (create_state_query ns name) = ns ++ "-" ++ name.
Proof.
  intros Hns Hname. unfold create_state_query.
  rewrite replace_app, (replace_without _ _ ns Hns). simpl.
  rewrite (replace_without _ _ name Hname). reflexivity.
Qed.

Lemma first_token_create_state_query (ns name : string) :
  contains colon ns = false ->
  hd "" (split colon (create_state_query ns name)) = ns.
Proof.
  intros Hns. unfold create_state_query.
  change (":" ++ name) with (String colon name).
  rewrite (split_app_sep colon ns name Hns). reflexivity.
Qed.

Lemma endswith_sep_app (s t : string) :
  t <> "" -> endswith_sep (s ++ t) = endswith_sep t.
Proof.
  intros Ht. induction s as [|c s IH]; [reflexivity|].
  simpl. rewrite IH. destruct (s ++ t) eqn:Hst; [|reflexivity].
  destruct s; simpl in Hst; [contradiction | discriminate].
Qed.

Lemma append_not_empty (s t : string) : t <> "" -> String.eqb (s ++ t) "" = false.
Proof.
  intros Ht. apply String.eqb_neq. destruct s; simpl; [exact Ht | discriminate].
Qed.

Lemma no_sep_not_absolute (s : string) :
  contains "/" s = false -> startswith_sep s = false.
Proof.
  destruct s as [|c s]; simpl; [reflexivity|].
  intros H. apply orb_false_iff in H as [Hc _].
  destruct (Ascii.eqb_spec c "/") as [-> | Hne]; [discriminate|].
  destruct c as [[] [] [] [] [] [] [] []]; try reflexivity. contradiction.
Qed.

(** Joining a relative component onto a path that ends in [cache]. *)
Lemma join_step_cache (path b : string) :
  startswith_sep b = false ->
  join_step (join_step path "cache") b = join_step path "cache" ++ "/" ++ b.
Proof.
  intros Hb. unfold join_step at 1. rewrite Hb.
  assert (Hend : endswith_sep (join_step path "cache") = false
                 /\ String.eqb (join_step path "cache") "" = false).
  { unfold join_step. cbn [startswith_sep].
    destruct (String.eqb path "" || endswith_sep path)%bool.
    - split; [apply (endswith_sep_app path "cache") | apply append_not_empty];
        discriminate.
    - split; [apply (endswith_sep_app path "/cache") | apply append_not_empty];
        discriminate. }
  destruct Hend as [-> ->]. reflexivity.
Qed.

End StringFacts.

Section CacheLayout.

Import Str Resolver.

Variable Obj : Type.

Implicit Types (fs : filesystem Obj) (ns name query : string).

(** The cache root, [os.path.join(home, "SyferText", "cache")]. *)
Lemma cache_file_created fs ns name :
  contains colon ns = false -> contains colon name = false ->
  startswith_sep ns = false ->
  cache_file fs (create_state_query ns name) =
    path_join (home fs) ["SyferText"; "cache"]
      ++ "/" ++ ns ++ "/" ++ ns ++ "-" ++ name ++ ".pkl".
Proof.
  intros Hns Hname Hrel. unfold cache_file, cache_dir.
  rewrite (first_token_create_state_query ns name Hns).
  rewrite (replace_create_state_query ns name Hns Hname).
  unfold path_join. cbn [fold_left].
  rewrite (join_step_cache _ ns Hrel).
  rewrite !append_assoc. reflexivity.
Qed.

(** X7: for a home directory that is not empty and does not end in [/],
    and names without [:] where the pipeline name does not start with [/],
    the cache file of the query [pipeline:state] is
    [<home>/SyferText/cache/<pipeline>/<pipeline>-<state>.pkl]. *)
Theorem cache_file_layout fs ns name :
  home fs <> "" -> endswith_sep (home fs) = false ->
  contains colon ns = false -> contains colon name = false ->
  startswith_sep ns = false ->
  cache_file fs (create_state_query ns name) =
    home fs ++ "/SyferText/cache/" ++ ns ++ "/" ++ ns ++ "-" ++ name ++ ".pkl".
Proof.
  intros Hhome Hend Hns Hname Hrel.
  rewrite (cache_file_created fs ns name Hns Hname Hrel).
  unfold path_join. cbn [fold_left].
  assert (H1 : join_step (home fs) "SyferText" = home fs ++ "/SyferText").
  { unfold join_step. cbn [startswith_sep]. rewrite Hend.
    apply String.eqb_neq in Hhome. rewrite Hhome. reflexivity. }
  rewrite H1. unfold join_step. cbn [startswith_sep].
  rewrite (endswith_sep_app (home fs) "/SyferText") by discriminate.
  rewrite (append_not_empty (home fs) "/SyferText") by discriminate.
  cbn [endswith_sep orb Ascii.eqb Bool.eqb andb].
  rewrite !append_assoc. reflexivity.
Qed.

(** X8: distinct queries get distinct cache files, as long as the names
    contain no [:] and the pipeline names no [/]: the cache file determines
    both the pipeline name and the state name. *)
Theorem cache_file_injective fs ns name ns' name' :
  contains colon ns = false -> contains colon name = false ->
  contains colon ns' = false -> contains colon name' = false ->
  contains "/" ns = false -> contains "/" ns' = false ->
  cache_file fs (create_state_query ns name) =
    cache_file fs (create_state_query ns' name') ->
  ns = ns' /\ name = name'.
Proof.
  intros Hns Hname Hns' Hname' Hsl Hsl'.
  rewrite (cache_file_created fs ns name Hns Hname (no_sep_not_absolute ns Hsl)).
  rewrite (cache_file_created fs ns' name' Hns' Hname' (no_sep_not_absolute ns' Hsl')).
  intros H. apply append_inv_head in H. simpl in H. injection H as H.
  apply (append_sep_inj "/" ns ns' _ _ Hsl Hsl') in H as [<- H].
  split; [reflexivity|].
  apply append_inv_head in H. simpl in H. injection H as H.
  exact (append_inv_tail name name' ".pkl" H).
Qed.

(** X9: a pipeline name that starts with [/] takes the lookup out of the
    cache directory: [os.path.join] drops the cache root, and the directory
    probed is the pipeline name itself. *)
Theorem cache_dir_absolute_pipeline fs ns name :
  contains colon ns = false ->
  startswith_sep ns = true ->
  cache_dir fs (create_state_query ns name) = ns.
Proof.
  intros Hns Habs. unfold cache_dir.
  rewrite (first_token_create_state_query ns name Hns).
  unfold path_join. cbn [fold_left]. unfold join_step at 1.
  rewrite Habs. reflexivity.
Qed.

(** X10: the file name derived from a query never contains [:], and has
    as many characters as the query. *)
Theorem cache_file_name_has_no_colon query :
  contains colon (replace colon dash query) = false
  /\ String.length (replace colon dash query) = String.length query.
Proof.
  induction query as [|c query [IHc IHl]]; [split; reflexivity|].
  simpl. rewrite IHc, IHl. split; [|reflexivity].
  rewrite orb_false_r.
  destruct (Ascii.eqb_spec c colon) as [-> | Hne]; [reflexivity|].
  apply Ascii.eqb_neq. exact Hne.
Qed.

End CacheLayout.

Lemma cache_file_layout_witness :
  Resolver.cache_file Examples.no_cache (Str.create_state_query "modelA" "vocab") =
    "/home/user" ++ "/SyferText/cache/" ++ "modelA" ++ "/" ++ "modelA" ++ "-" ++ "vocab" ++ ".pkl".
Proof.
  apply (cache_file_layout nat Examples.no_cache "modelA" "vocab");
    try reflexivity.
  discriminate.
Defined.

Lemma cache_file_injective_witness : "modelA" = "modelA" /\ "vocab" = "vocab".
Proof.
  apply (cache_file_injective nat Examples.no_cache "modelA" "vocab" "modelA" "vocab");
    reflexivity.
Defined.

Lemma cache_dir_absolute_pipeline_witness :
  Resolver.cache_dir Examples.no_cache (Str.create_state_query "/etc" "passwd") = "/etc".
Proof.
  apply (cache_dir_absolute_pipeline nat Examples.no_cache "/etc" "passwd");
    reflexivity.
Defined.

(** Without the condition on [/] two queries can share a cache file. *)
Example cache_file_collision :
  Resolver.cache_file Examples.no_cache (Str.create_state_query "a" "b/a/a-b-z") =
  Resolver.cache_file Examples.no_cache (Str.create_state_query "a/a-b" "z").
Proof. reflexivity. Qed.

(** ** The remaining outcomes of [search_resource] *)

Section ResolverMore.

Import Resolver.

Variables Obj Loc : Type.

Implicit Types (fs : filesystem Obj) (w : worker Obj Loc) (query : string).

Lemma cache_probe_asks_nobody fs query :
  existsb is_request (@cache_probe Obj Loc fs query) = false.
Proof.
  unfold cache_probe. cbn.
  destruct (path_exists fs _); cbn; [|reflexivity].
  destruct (isfile fs _); reflexivity.
Qed.

(** What the loop has asked is the front part of the list it walks. *)
Lemma search_known_workers_prefix w query items :
  exists n, fst (search_known_workers w query items) = requests query (firstn n items).
Proof.
  induction items as [|[id location] items [n IH]].
  - exists 0. reflexivity.
  - destruct (request_search w query location) as [e | [|o [|o' os]]] eqn:Hreq.
    + exists 1. rewrite (search_known_workers_raise _ _ w query id location items e Hreq).
      reflexivity.
    + exists (S n).
      rewrite (search_known_workers_skip _ _ w query id location items Hreq).
      cbn [fst firstn requests map snd]. rewrite IH. reflexivity.
    + exists 1. rewrite (search_known_workers_found _ _ w query id location items o Hreq).
      reflexivity.
    + exists 1.
      rewrite (search_known_workers_ambiguous _ _ w query id location items o o' os Hreq).
      reflexivity.
Qed.

(** X11: with no local match, a cache file of positive size that unpickles
    to an object is the answer: the object is returned after the disk
    probes and one load, and no known worker is asked. *)
Theorem search_resource_cache_hit fs query w simplified_state :
  search w query = inr [] ->
  cache_hit fs query = true ->
  load fs (cache_file fs query) = inr simplified_state ->
  search_resource fs query w =
    ((LocalSearch query :: cache_probe fs query
        ++ [OpenLoad (cache_file fs query)])%list,
     inr (Some simplified_state))
  /\ existsb is_request (fst (search_resource fs query w)) = false.
Proof.
  intros Hlocal Hhit Hload.
  rewrite (search_resource_local_miss _ _ fs query w Hlocal), Hhit, Hload.
  split; [reflexivity|].
  cbn [fst existsb is_request orb].
  rewrite existsb_app, cache_probe_asks_nobody. reflexivity.
Qed.

(** X12: with no local match, a cache file of positive size that
    [dill.load] rejects ends the search: the exception of the load is
    raised, and no known worker is asked. *)
Theorem search_resource_corrupt_cache fs query w e :
  search w query = inr [] ->
  cache_hit fs query = true ->
  load fs (cache_file fs query) = inl e ->
  search_resource fs query w =
    ((LocalSearch query :: cache_probe fs query
        ++ [OpenLoad (cache_file fs query)])%list,
     inl e)
  /\ existsb is_request (fst (search_resource fs query w)) = false.
Proof.
  intros Hlocal Hhit Hload.
  rewrite (search_resource_local_miss _ _ fs query w Hlocal), Hhit, Hload.
  split; [reflexivity|].
  cbn [fst existsb is_request orb].
  rewrite existsb_app, cache_probe_asks_nobody. reflexivity.
Qed.

(** X13: when neither the local worker, nor the cache, nor any known
    worker has a match, the result is [None], and every known worker has
    been asked once, in the order of [_known_workers]. *)
Theorem search_resource_not_found fs query w :
  search w query = inr [] ->
  cache_hit fs query = false ->
  (forall item, In item (known_workers w) ->
                request_search w query (snd item) = inr []) ->
  search_resource fs query w =
    ((LocalSearch query :: cache_probe fs query
        ++ requests query (known_workers w))%list,
     inr None).
Proof.
  intros Hlocal Hhit Hnone.
  rewrite (search_resource_local_miss _ _ fs query w Hlocal), Hhit.
  pose proof (search_known_workers_app _ _ w query (known_workers w) [] Hnone) as Happ.
  rewrite app_nil_r in Happ. rewrite Happ. cbn [fst snd search_known_workers ret traced_monad].
  rewrite app_nil_r. reflexivity.
Qed.

(** X14: a known worker that returns more than one match fails the
    assertion: the search raises, returns none of the matches, and asks no
    worker listed after that one. *)
Theorem search_resource_remote_ambiguous fs query w pre id location post o o' os :
  search w query = inr [] ->
  cache_hit fs query = false ->
  known_workers w = (pre ++ (id, location) :: post)%list ->
  (forall item, In item pre -> request_search w query (snd item) = inr []) ->
  request_search w query location = inr (o :: o' :: os) ->
  search_resource fs query w =
    ((LocalSearch query :: cache_probe fs query
        ++ requests query pre ++ [RequestSearch query location])%list,
     inl (AssertionError ambiguous_msg)).
Proof.
  intros Hlocal Hhit Hknown Hpre Hreq.
  rewrite (search_resource_local_miss _ _ fs query w Hlocal), Hhit, Hknown.
  rewrite (search_known_workers_app _ _ w query pre _ Hpre).
  rewrite (search_known_workers_ambiguous _ _ w query id location post o o' os Hreq).
  reflexivity.
Qed.

(** X15: an exception raised by the local worker's own search is raised by
    [search_resource]; neither the disk nor a known worker is consulted. *)
Theorem search_resource_local_failure fs query w e :
  search w query = inl e ->
  search_resource fs query w = ([LocalSearch query], inl e).
Proof. intros Hlocal. unfold search_resource. rewrite Hlocal. reflexivity. Qed.

(** X16: in every run the first call is the local search, and the remote
    searches issued are those to the first [n] known workers, for some
    [n], each asked once, in the order of [_known_workers], and all with
    the query that was given. *)
Theorem search_resource_requests_prefix fs query w :
  exists n rest,
    fst (search_resource fs query w) = LocalSearch query :: rest
    /\ filter is_request (fst (search_resource fs query w)) =
       requests query (firstn n (known_workers w)).
Proof.
  destruct (search w query) as [e | [|o matches]] eqn:Hlocal.
  - exists 0, []. unfold search_resource. rewrite Hlocal. split; reflexivity.
  - rewrite (search_resource_local_miss _ _ fs query w Hlocal).
    destruct (cache_hit fs query).
    + exists 0. eexists. split; [reflexivity|].
      cbn [fst filter is_request firstn requests map].
      rewrite filter_app, cache_probe_no_request. reflexivity.
    + destruct (search_known_workers_prefix w query (known_workers w)) as [n Hn].
      exists n. eexists. split; [reflexivity|].
      cbn [fst filter is_request].
      rewrite filter_app, cache_probe_no_request, Hn, filter_requests. reflexivity.
  - exists 0, []. unfold search_resource. rewrite Hlocal.
    destruct matches; split; reflexivity.
Qed.

End ResolverMore.

Lemma search_resource_cache_hit_witness :
  Resolver.search_resource Scenarios.warm_cache Examples.query Examples.bob_holds =
    ((Resolver.LocalSearch Examples.query
        :: Resolver.cache_probe Scenarios.warm_cache Examples.query
        ++ [Resolver.OpenLoad (Resolver.cache_file Scenarios.warm_cache Examples.query)])%list,
     inr (Some 99))
  /\ existsb Resolver.is_request
       (fst (Resolver.search_resource Scenarios.warm_cache Examples.query
               Examples.bob_holds)) = false.
Proof.
  apply (search_resource_cache_hit nat string Scenarios.warm_cache Examples.query
           Examples.bob_holds 99); reflexivity.
Defined.

Lemma search_resource_corrupt_cache_witness :
  Resolver.search_resource Scenarios.corrupt_cache Examples.query Examples.bob_holds =
    ((Resolver.LocalSearch Examples.query
        :: Resolver.cache_probe Scenarios.corrupt_cache Examples.query
        ++ [Resolver.OpenLoad (Resolver.cache_file Scenarios.corrupt_cache Examples.query)])%list,
     inl (RemoteError "UnpicklingError"))
  /\ existsb Resolver.is_request
       (fst (Resolver.search_resource Scenarios.corrupt_cache Examples.query
               Examples.bob_holds)) = false.
Proof.
  apply (search_resource_corrupt_cache nat string Scenarios.corrupt_cache Examples.query
           Examples.bob_holds (RemoteError "UnpicklingError")); reflexivity.
Defined.

Lemma search_resource_not_found_witness :
  Resolver.search_resource Examples.no_cache Examples.query Scenarios.nobody_holds =
    ((Resolver.LocalSearch Examples.query
        :: Resolver.cache_probe Examples.no_cache Examples.query
        ++ Resolver.requests Examples.query
             (Resolver.known_workers Scenarios.nobody_holds))%list,
     inr None).
Proof.
  apply (search_resource_not_found nat string Examples.no_cache Examples.query
           Scenarios.nobody_holds).
  - reflexivity.
  - reflexivity.
  - intros item _. reflexivity.
Defined.

Lemma search_resource_remote_ambiguous_witness :
  Resolver.search_resource Examples.no_cache Examples.query Scenarios.alice_ambiguous =
    ((Resolver.LocalSearch Examples.query
        :: Resolver.cache_probe Examples.no_cache Examples.query
        ++ Resolver.requests Examples.query [("me", "me")]
        ++ [Resolver.RequestSearch Examples.query "alice"])%list,
     inl (AssertionError Resolver.ambiguous_msg)).
Proof.
  apply (search_resource_remote_ambiguous nat string Examples.no_cache Examples.query
           Scenarios.alice_ambiguous [("me", "me")] "alice" "alice"
           [("bob", "bob"); ("carol", "carol")] 40 41 []).
  - reflexivity.
  - reflexivity.
  - reflexivity.
  - intros item [<- | []]; reflexivity.
  - reflexivity.
Defined.

Lemma search_resource_local_failure_witness :
  Resolver.search_resource Scenarios.warm_cache Examples.query Scenarios.local_store_down =
    ([Resolver.LocalSearch Examples.query], inl (RemoteError "ObjectStoreError")).
Proof.
  apply (search_resource_local_failure nat string Scenarios.warm_cache Examples.query
           Scenarios.local_store_down (RemoteError "ObjectStoreError")).
  reflexivity.
Defined.

(** ** The configurations that [create_mpc_config] builds *)

Section MpcMore.

Import Mpc.

Variable W : Type.
Variable rng : nat -> nat.

Implicit Types (all_workers : dict W).

(** With three or more eligible workers whose ids numpy hands back
    unchanged, the handles of three eligible workers fill the three
    roles. *)
Lemma create_mpc_config_three_drawn all_workers :
  no_id_ends_in_nul all_workers ->
  3 <= List.length (known_workers_except_me all_workers) ->
  exists id0 id1 id2 w0 w1 w2,
    create_mpc_config rng all_workers =
      inr (Some [("node_0", w0); ("node_1", w1); ("node_2", w2)])
    /\ In (id0, w0) (known_workers_except_me all_workers)
    /\ In (id1, w1) (known_workers_except_me all_workers)
    /\ In (id2, w2) (known_workers_except_me all_workers).
Proof.
  intros Hsafe Hlen. unfold no_id_ends_in_nul in Hsafe. unfold create_mpc_config.
  set (known_workers := known_workers_except_me all_workers) in *.
  assert (Hkeys : List.length (keys known_workers) = List.length known_workers)
    by apply length_map.
  destruct (Nat.eqb_spec (List.length known_workers) 1) as [|_]; [lia|].
  destruct (Nat.eqb_spec (List.length known_workers) 2) as [|_]; [lia|].
  destruct (Nat.leb_spec 3 (List.length known_workers)) as [_|]; [|lia].
  cbn [bind ret outcome_monad].
  rewrite (random_choice_kept rng (keys known_workers) 3 ltac:(lia) Hsafe).
  pose proof (sample_length _ "" rng 0 (keys known_workers) 3) as Hsl.
  pose proof (fun x => sample_incl _ "" rng 3 0 (keys known_workers) x ltac:(lia))
    as Hsin.
  destruct (sample "" rng 0 (keys known_workers) 3)
    as [|id0 [|id1 [|id2 [|? ?]]]]; try discriminate Hsl.
  destruct (lookup_of_key _ known_workers id0) as [w0 H0];
    [apply Hsin; cbn; tauto|].
  destruct (lookup_of_key _ known_workers id1) as [w1 H1];
    [apply Hsin; cbn; tauto|].
  destruct (lookup_of_key _ known_workers id2) as [w2 H2];
    [apply Hsin; cbn; tauto|].
  rewrite (assign_nodes_three _ known_workers id0 id1 id2 w0 w1 w2 H0 H1 H2).
  exists id0, id1, id2, w0, w1, w2.
  repeat split; apply lookup_In; assumption.
Qed.

Lemma dict_setitem_In (d : dict W) k v k' v' :
  In (k', v') (dict_setitem d k v) -> (k', v') = (k, v) \/ In (k', v') d.
Proof.
  induction d as [|[k0 v0] d IH]; cbn.
  - intros [<- | []]. left; reflexivity.
  - destruct (String.eqb_spec k0 k) as [-> | _]; cbn.
    + intros [<- | Hin]; [left; reflexivity | right; right; exact Hin].
    + intros [<- | Hin]; [right; left; reflexivity|].
      destruct (IH Hin) as [Heq | Hd]; [left; exact Heq | right; right; exact Hd].
Qed.

(** Whatever the ids, a handle that the loop has stored was either there
    before or was read from [known_workers]. *)
Lemma assign_nodes_values (known_workers : dict W) ids i cfg cfg' role w :
  assign_nodes known_workers i ids cfg = inr cfg' ->
  In (role, w) cfg' ->
  In (role, w) cfg \/ exists id, In (id, w) known_workers.
Proof.
  revert i cfg. induction ids as [|id ids IH]; intros i cfg Hrun Hin;
    cbn [assign_nodes bind ret outcome_monad] in Hrun.
  - injection Hrun as <-. left; exact Hin.
  - unfold dict_getitem in Hrun.
    destruct (lookup known_workers id) as [w0|] eqn:Hw0; [|discriminate Hrun].
    destruct (IH _ _ Hrun Hin) as [Hset | Hkw]; [|right; exact Hkw].
    apply dict_setitem_In in Hset as [[= _ ->] | Hcfg]; [|left; exact Hcfg].
    right. exists id. exact (lookup_In _ known_workers id w0 Hw0).
Qed.

(** With exactly two eligible workers, whatever the keys. *)
Lemma create_mpc_config_two_listed all_workers a wa b wb :
  known_workers_except_me all_workers = [(a, wa); (b, wb)] ->
  exists w1,
    create_mpc_config rng all_workers =
      inr (Some [("node_0", wa); ("node_1", w1); ("node_2", w1)])
    /\ (w1 = wa \/ w1 = wb).
Proof.
  intros Hk. unfold create_mpc_config. rewrite Hk.
  cbn. unfold dict_getitem. cbn. rewrite !String.eqb_refl.
  destruct (String.eqb a b); cbn; eauto.
Qed.

(** X17: with exactly two eligible workers the first one, in registry
    order, is [node_0] and the second one is both [node_1] and [node_2];
    the random source plays no part. *)
Theorem create_mpc_config_two_roles all_workers a wa b wb :
  well_formed all_workers ->
  known_workers_except_me all_workers = [(a, wa); (b, wb)] ->
  create_mpc_config rng all_workers =
    inr (Some [("node_0", wa); ("node_1", wb); ("node_2", wb)]).
Proof.
  intros Hwf Hk. apply (create_mpc_config_two_eligible _ rng all_workers a wa b wb Hk).
  pose proof (eligible_well_formed _ all_workers Hwf) as Hnd.
  unfold well_formed in Hnd. rewrite Hk in Hnd. cbn in Hnd.
  inversion Hnd as [|? ? Hnotin _]. intros ->. apply Hnotin. left; reflexivity.
Qed.

(** X18: with three or more eligible workers, in a registry in which no
    id of an eligible worker ends in a NUL character, the configuration has
    the three keys [node_0], [node_1], [node_2], held by three workers of
    the registry with pairwise distinct ids, none of which is [me]. *)
Theorem create_mpc_config_three_roles all_workers :
  well_formed all_workers ->
  no_id_ends_in_nul all_workers ->
  3 <= List.length (known_workers_except_me all_workers) ->
  exists id0 id1 id2 w0 w1 w2,
    create_mpc_config rng all_workers =
      inr (Some [("node_0", w0); ("node_1", w1); ("node_2", w2)])
    /\ NoDup [id0; id1; id2]
    /\ (In (id0, w0) all_workers /\ id0 <> "me")
    /\ (In (id1, w1) all_workers /\ id1 <> "me")
    /\ (In (id2, w2) all_workers /\ id2 <> "me").
Proof.
  intros Hwf Hsafe Hlen.
  exact (create_mpc_config_three_or_more _ rng all_workers Hwf Hsafe Hlen).
Qed.

(** X19: when the registry is empty or lists nobody but [me], the result
    is the empty configuration: not [None], and not an exception. *)
Theorem create_mpc_config_nobody all_workers :
  (forall id w, In (id, w) all_workers -> id = "me") ->
  create_mpc_config rng all_workers = inr (Some []).
Proof.
  intros Hme. apply create_mpc_config_none_eligible.
  unfold known_workers_except_me.
  induction all_workers as [|[id w] rest IH]; [reflexivity|].
  cbn [filter fst]. rewrite (Hme id w) by (left; reflexivity). cbn.
  apply IH. intros id' w' Hin. apply (Hme id' w'). right. exact Hin.
Qed.

(** X20: a worker that is given a role is always an entry of the registry
    under an id other than [me]. *)
Theorem create_mpc_config_roles_eligible all_workers mpc_config role w :
  create_mpc_config rng all_workers = inr (Some mpc_config) ->
  In (role, w) mpc_config ->
  exists id, id <> "me" /\ In (id, w) all_workers.
Proof.
  intros Hrun Hin.
  assert (Helig : forall id' w', In (id', w') (known_workers_except_me all_workers) ->
                    exists id, id <> "me" /\ In (id, w') all_workers).
  { intros id' w' H. exists id'. exact (eligible_In _ all_workers id' w' H). }
  destruct (known_workers_except_me all_workers)
    as [|[a wa] [|[b wb] [|[c wc] rest]]] eqn:Hk.
  - rewrite (create_mpc_config_none_eligible _ rng all_workers Hk) in Hrun.
    injection Hrun as <-. destruct Hin.
  - unfold create_mpc_config in Hrun. rewrite Hk in Hrun. discriminate Hrun.
  - destruct (create_mpc_config_two_listed all_workers a wa b wb Hk) as [w1 [Hcfg Hw1]].
    rewrite Hcfg in Hrun. injection Hrun as <-.
    destruct Hin as [[= _ <-] | [[= _ <-] | [[= _ <-] | []]]].
    + apply (Helig a). left; reflexivity.
    + destruct Hw1 as [-> | ->];
        [apply (Helig a); left | apply (Helig b); right; left]; reflexivity.
    + destruct Hw1 as [-> | ->];
        [apply (Helig a); left | apply (Helig b); right; left]; reflexivity.
  - unfold create_mpc_config in Hrun. rewrite Hk in Hrun.
    set (known_workers := (a, wa) :: (b, wb) :: (c, wc) :: rest) in *.
    change (List.length known_workers =? 1)%nat with false in Hrun.
    change (List.length known_workers =? 2)%nat with false in Hrun.
    change (3 <=? List.length known_workers)%nat with true in Hrun.
    cbn [bind ret outcome_monad] in Hrun.
    rewrite (random_choice_enough rng (keys known_workers) 3) in Hrun by (cbn; lia).
    destruct (assign_nodes known_workers 0
                (map np_str (sample "" rng 0 (keys known_workers) 3)) [])
      as [e | cfg] eqn:Hcfg; [discriminate Hrun|].
    injection Hrun as <-.
    destruct (assign_nodes_values _ _ _ _ _ _ _ Hcfg Hin) as [[] | [id Hid]].
    exact (Helig id w Hid).
Qed.

(** X21: as soon as two workers are eligible, in a registry in which no
    id of an eligible worker ends in a NUL character, the configuration has
    the keys [node_0], [node_1] and [node_2], in this order, and no
    other. *)
Theorem create_mpc_config_keys all_workers :
  no_id_ends_in_nul all_workers ->
  2 <= List.length (known_workers_except_me all_workers) ->
  exists mpc_config,
    create_mpc_config rng all_workers = inr (Some mpc_config)
    /\ keys mpc_config = ["node_0"; "node_1"; "node_2"].
Proof.
  intros Hsafe Hlen.
  destruct (known_workers_except_me all_workers)
    as [|[a wa] [|[b wb] [|[c wc] rest]]] eqn:Hk; cbn in Hlen; try lia.
  - destruct (create_mpc_config_two_listed all_workers a wa b wb Hk) as [w1 [Hcfg _]].
    rewrite Hcfg. eexists. split; reflexivity.
  - destruct (create_mpc_config_three_drawn all_workers Hsafe)
      as (id0 & id1 & id2 & w0 & w1 & w2 & Hcfg & _).
    { rewrite Hk. cbn. lia. }
    rewrite Hcfg. eexists. split; reflexivity.
Qed.

End MpcMore.

Lemma registry_two_well_formed : Mpc.well_formed Examples.registry_two.
Proof.
  unfold Mpc.well_formed. cbn.
  repeat constructor; cbn; intuition discriminate.
Defined.

Lemma registry_four_well_formed : Mpc.well_formed Examples.registry_four.
Proof.
  unfold Mpc.well_formed. cbn.
  repeat constructor; cbn; intuition discriminate.
Defined.

Lemma create_mpc_config_two_roles_witness :
  Mpc.create_mpc_config Examples.odd_draws Examples.registry_two =
    inr (Some [("node_0", 1); ("node_1", 2); ("node_2", 2)]).
Proof.
  apply (create_mpc_config_two_roles nat Examples.odd_draws Examples.registry_two
           "alice" 1 "bob" 2).
  - exact registry_two_well_formed.
  - reflexivity.
Defined.

Lemma create_mpc_config_three_roles_witness :
  exists id0 id1 id2 w0 w1 w2,
    Mpc.create_mpc_config Examples.odd_draws Examples.registry_four =
      inr (Some [("node_0", w0); ("node_1", w1); ("node_2", w2)])
    /\ NoDup [id0; id1; id2]
    /\ (In (id0, w0) Examples.registry_four /\ id0 <> "me")
    /\ (In (id1, w1) Examples.registry_four /\ id1 <> "me")
    /\ (In (id2, w2) Examples.registry_four /\ id2 <> "me").
Proof.
  apply (create_mpc_config_three_roles nat Examples.odd_draws Examples.registry_four).
  - exact registry_four_well_formed.
  - exact registry_four_no_nul.
  - cbn. lia.
Defined.

Lemma create_mpc_config_nobody_witness :
  Mpc.create_mpc_config Examples.odd_draws [("me", 0)] = inr (Some []).
Proof.
  apply (create_mpc_config_nobody nat Examples.odd_draws [("me", 0)]).
  intros id w [[= <- _] | []]. reflexivity.
Defined.

Lemma create_mpc_config_roles_eligible_witness :
  exists id, id <> "me" /\ In (id, 2) Examples.registry_two.
Proof.
  apply (create_mpc_config_roles_eligible nat Examples.odd_draws Examples.registry_two
           [("node_0", 1); ("node_1", 2); ("node_2", 2)] "node_2" 2).
  - reflexivity.
  - cbn. tauto.
Defined.

Lemma create_mpc_config_keys_witness :
  exists mpc_config,
    Mpc.create_mpc_config Examples.odd_draws Examples.registry_four = inr (Some mpc_config)
    /\ Mpc.keys mpc_config = ["node_0"; "node_1"; "node_2"].
Proof.
  apply (create_mpc_config_keys nat Examples.odd_draws Examples.registry_four).
  - exact registry_four_no_nul.
  - cbn. lia.
Defined.

(** ** The expressions built for the tokenizer *)

Section RegexFacts.

Import Str Regex.

Variable escape : string -> string.
Variable valid_regex : string -> bool.

Lemma contains_app (c : ascii) (a b : string) :
  contains c (a ++ b) = (contains c a || contains c b)%bool.
Proof.
  induction a as [|x a IH]; simpl; [reflexivity|].
  rewrite IH, orb_assoc. reflexivity.
Qed.

(** Splitting what [join] has put together gives the pieces back. *)
Lemma split_join (pieces : list string) :
  pieces <> [] ->
  (forall piece, In piece pieces -> contains bar piece = false) ->
  split bar (join "|" pieces) = pieces.
Proof.
  induction pieces as [|x [|y rest] IH]; intros Hne Hbar.
  - contradiction.
  - cbn. apply split_without_sep. apply Hbar. left; reflexivity.
  - change (join "|" (x :: y :: rest)) with (x ++ String bar (join "|" (y :: rest))).
    rewrite split_app_sep by (apply Hbar; left; reflexivity).
    rewrite IH; [reflexivity | discriminate |].
    intros piece Hin. apply Hbar. right. exact Hin.
Qed.

Lemma filter_none (entries : list string) :
  (forall piece, In piece entries -> strip_truthy piece = false) ->
  filter strip_truthy entries = [].
Proof.
  induction entries as [|piece entries IH]; intros Hblank; [reflexivity|].
  cbn. rewrite (Hblank piece) by (left; reflexivity).
  apply IH. intros p Hin. apply Hblank. right. exact Hin.
Qed.

Lemma filter_twice (entries : list string) :
  filter strip_truthy (filter strip_truthy entries) = filter strip_truthy entries.
Proof.
  induction entries as [|piece entries IH]; [reflexivity|].
  cbn. destruct (strip_truthy piece) eqn:Hp; cbn; rewrite ?Hp, IH; reflexivity.
Qed.

Lemma paren_survives (entries : list string) :
  existsb (String.eqb "(") (filter strip_truthy entries) =
  existsb (String.eqb "(") entries.
Proof.
  induction entries as [|piece entries IH]; [reflexivity|].
  cbn [filter existsb]. destruct (strip_truthy piece) eqn:Hp.
  - cbn [existsb]. rewrite IH. reflexivity.
  - rewrite IH. destruct (String.eqb_spec "(" piece) as [<- | _];
      [discriminate Hp | reflexivity].
Qed.

(** Each function hands its expression to [re.compile]. *)
Lemma compile_regex_unfold (entries : list string) :
  compile_prefix_regex escape valid_regex entries =
    re_compile valid_regex (prefix_expression escape entries)
  /\ compile_suffix_regex valid_regex entries =
    re_compile valid_regex (suffix_expression entries)
  /\ compile_infix_regex valid_regex entries =
    re_compile valid_regex (infix_expression entries).
Proof.
  unfold compile_prefix_regex, prefix_expression.
  destruct (existsb (String.eqb "(") entries); repeat split.
Qed.

Lemma re_compile_pattern (expression : string) (p : Pattern) :
  re_compile valid_regex expression = inr p -> pattern p = expression.
Proof.
  unfold re_compile. destruct (valid_regex expression); [|discriminate].
  intros [= <-]. reflexivity.
Qed.

(** X22: when every entry is empty or white space only (in particular for
    the empty tuple), the expression that each of the three functions
    builds is empty, and each returns what [re.compile] makes of the empty
    expression. *)
Theorem compile_regex_all_blank (entries : list string) :
  (forall piece, In piece entries -> strip_truthy piece = false) ->
  (prefix_expression escape entries = ""
   /\ suffix_expression entries = ""
   /\ infix_expression entries = "")
  /\ compile_prefix_regex escape valid_regex entries = re_compile valid_regex ""
  /\ compile_suffix_regex valid_regex entries = re_compile valid_regex ""
  /\ compile_infix_regex valid_regex entries = re_compile valid_regex "".
Proof.
  intros Hblank.
  destruct (compile_regex_unfold entries) as (-> & -> & ->).
  unfold prefix_expression, suffix_expression, infix_expression.
  rewrite (filter_none entries Hblank).
  destruct (existsb (String.eqb "(") entries); repeat split.
Qed.

(** X23: entries that are empty or white space only do not count: each of
    the three functions builds the same expression, and returns the same
    result, with and without them. *)
Theorem compile_regex_ignores_blank (entries : list string) :
  (prefix_expression escape (filter strip_truthy entries) =
     prefix_expression escape entries
   /\ suffix_expression (filter strip_truthy entries) = suffix_expression entries
   /\ infix_expression (filter strip_truthy entries) = infix_expression entries)
  /\ compile_prefix_regex escape valid_regex (filter strip_truthy entries) =
     compile_prefix_regex escape valid_regex entries
  /\ compile_suffix_regex valid_regex (filter strip_truthy entries) =
     compile_suffix_regex valid_regex entries
  /\ compile_infix_regex valid_regex (filter strip_truthy entries) =
     compile_infix_regex valid_regex entries.
Proof.
  unfold compile_prefix_regex, compile_suffix_regex, compile_infix_regex,
    prefix_expression, suffix_expression, infix_expression.
  rewrite paren_survives, filter_twice. repeat split.
Qed.

(** X24: when no entry contains [|], some entry is not blank and [(] is
    not an entry, the alternatives of the expression that each function
    builds are exactly the non-blank entries, in their order: each preceded
    by [^] for prefixes, each followed by [$] for suffixes, and as they are
    for infixes.  The function raises when [re.compile] rejects that
    expression, and a pattern that it returns has these alternatives. *)
Theorem compile_regex_alternatives (entries : list string) :
  (forall piece, In piece entries -> contains bar piece = false) ->
  filter strip_truthy entries <> [] ->
  existsb (String.eqb "(") entries = false ->
  (split bar (prefix_expression escape entries) =
     map (fun piece => "^" ++ piece) (filter strip_truthy entries)
   /\ compile_prefix_regex escape valid_regex entries =
        re_compile valid_regex (prefix_expression escape entries)
   /\ forall p, compile_prefix_regex escape valid_regex entries = inr p ->
        split bar (pattern p) =
          map (fun piece => "^" ++ piece) (filter strip_truthy entries))
  /\ (split bar (suffix_expression entries) =
       map (fun piece => piece ++ "$") (filter strip_truthy entries)
     /\ compile_suffix_regex valid_regex entries =
          re_compile valid_regex (suffix_expression entries)
     /\ forall p, compile_suffix_regex valid_regex entries = inr p ->
          split bar (pattern p) =
            map (fun piece => piece ++ "$") (filter strip_truthy entries))
  /\ (split bar (infix_expression entries) = filter strip_truthy entries
     /\ compile_infix_regex valid_regex entries =
          re_compile valid_regex (infix_expression entries)
     /\ forall p, compile_infix_regex valid_regex entries = inr p ->
          split bar (pattern p) = filter strip_truthy entries).
Proof.
  intros Hbar Hsome Hparen.
  assert (Hkept : forall piece, In piece (filter strip_truthy entries) ->
                    contains bar piece = false).
  { intros piece Hin. apply filter_In in Hin as [Hin _]. exact (Hbar piece Hin). }
  assert (Hmap : forall f : string -> string,
             map f (filter strip_truthy entries) <> []).
  { intros f Hnil. apply map_eq_nil in Hnil. contradiction. }
  assert (Hpre : split bar (prefix_expression escape entries) =
                 map (fun piece => "^" ++ piece) (filter strip_truthy entries)).
  { unfold prefix_expression. rewrite Hparen.
    apply split_join; [apply Hmap|].
    intros piece Hin. apply in_map_iff in Hin as [p [<- Hp]].
    cbn. exact (Hkept p Hp). }
  assert (Hsuf : split bar (suffix_expression entries) =
                 map (fun piece => piece ++ "$") (filter strip_truthy entries)).
  { unfold suffix_expression. apply split_join; [apply Hmap|].
    intros piece Hin. apply in_map_iff in Hin as [p [<- Hp]].
    rewrite contains_app, (Hkept p Hp). reflexivity. }
  assert (Hinf : split bar (infix_expression entries) = filter strip_truthy entries).
  { unfold infix_expression. rewrite map_id. apply split_join; assumption. }
  destruct (compile_regex_unfold entries) as (Hp & Hs & Hi).
  repeat split; try assumption.
  - intros p Hrun. rewrite Hp in Hrun. rewrite (re_compile_pattern _ p Hrun). exact Hpre.
  - intros p Hrun. rewrite Hs in Hrun. rewrite (re_compile_pattern _ p Hrun). exact Hsuf.
  - intros p Hrun. rewrite Hi in Hrun. rewrite (re_compile_pattern _ p Hrun). exact Hinf.
Qed.

End RegexFacts.

Lemma compile_regex_all_blank_witness :
  (Regex.prefix_expression (fun s => s) [""; "  "] = ""
   /\ Regex.suffix_expression [""; "  "] = ""
   /\ Regex.infix_expression [""; "  "] = "")
  /\ Regex.compile_prefix_regex (fun s => s) (fun _ => true) [""; "  "] =
     Regex.re_compile (fun _ => true) ""
  /\ Regex.compile_suffix_regex (fun _ => true) [""; "  "] =
     Regex.re_compile (fun _ => true) ""
  /\ Regex.compile_infix_regex (fun _ => true) [""; "  "] =
     Regex.re_compile (fun _ => true) "".
Proof.
  apply (compile_regex_all_blank (fun s => s) (fun _ => true) [""; "  "]).
  intros piece [<- | [<- | []]]; reflexivity.
Defined.

Lemma compile_regex_alternatives_witness :
  (Str.split Regex.bar (Regex.prefix_expression (fun s => s) ["\$"; " "; "#"]) =
     ["^\$"; "^#"]
   /\ Regex.compile_prefix_regex (fun s => s) (fun _ => true) ["\$"; " "; "#"] =
        inr (Regex.Compiled "^\$|^#")
   /\ Str.split Regex.bar (Regex.suffix_expression ["\$"; " "; "#"]) = ["\$$"; "#$"]
   /\ Str.split Regex.bar (Regex.infix_expression ["\$"; " "; "#"]) = ["\$"; "#"]).
Proof.
  assert (Hbar : forall piece, In piece ["\$"; " "; "#"] ->
                   Str.contains Regex.bar piece = false)
    by (intros piece [<- | [<- | [<- | []]]]; reflexivity).
  destruct (compile_regex_alternatives (fun s => s) (fun _ => true) ["\$"; " "; "#"]
              Hbar ltac:(discriminate) eq_refl)
    as ((Hpre & Hrun & _) & (Hsuf & _) & (Hinf & _)).
  repeat split; assumption.
Defined.

(** An expression that [re.compile] rejects makes the function raise. *)
Example compile_infix_regex_unclosed_bracket :
  Regex.compile_infix_regex (fun e => negb (Str.contains "[" e)) ["["; "a"] =
    inl (RemoteError "re.error").
Proof. reflexivity. Qed.

(** White space as [str.strip] sees it. *)
Example is_space_samples :
  map Regex.is_space [" "; "009"; "010"; "013"; "031"; "160"; "a"; "|"; "000"]%char =
    [true; true; true; true; true; true; false; false; false].
Proof. reflexivity. Qed.
